(** * Analytik: identity engine, deterministic bucketing and delivery pipeline

    A shallow embedding of the parts of [src/analytik.js] (class
    [DiscordAnalytics]) that compute the device fingerprint and its label,
    bucket a client into A/B tests and funnels, and queue outbound embeds.

    Conventions of the embedding:
    - a JavaScript string is a [string]: one code unit per character, code
    units below 256;
    - a JavaScript number that the code compares or divides is a binary64
    [float]; an integer the code manipulates with bit operations is a [Z]
    with the 32-bit wrap-around written out;
    - an object used as a dictionary and stored in [localStorage] as JSON is a
    [gmap string _] (its keys are ordinary names), an object whose key order
    is observable (the argument of [JSON.stringify]) is an association list;
    - [Date.now()], [Math.random()] and [fetch] are inputs of the functions
    that call them. *)

From Stdlib Require Import ZArith QArith Qround PrimFloat Uint63 Ascii String DecimalString.
From stdpp Require Import gmap strings list.

Set Warnings "-register-all".
Local Open Scope Z_scope.

(** ** JavaScript strings *)

Module JsString.

(** [str.charCodeAt(i)] *)
Definition code (a : ascii) : Z := Z.of_N (N_of_ascii a).

Definition charCodes (s : string) : list Z := map code (list_ascii_of_string s).

Definition chr (c : Z) : ascii := ascii_of_N (Z.to_N c).

Definition dquote : ascii := chr 34.
Definition backslash : ascii := chr 92.

Definition str1 (a : ascii) : string := String a EmptyString.

Fixpoint join (sep : string) (l : list string) : string :=
  match l with
  | [] => EmptyString
  | [x] => x
  | x :: rest => x +:+ sep +:+ join sep rest
  end.

(** [n.toString(10)] for an integer [n] *)
Definition decimal (n : Z) : string := NilZero.string_of_int (Z.to_int n).

Definition hexDigit (d : Z) : ascii :=
  if d <? 10 then chr (48 + d) else chr (87 + d).

(** [b.toString(16).padStart(2, '0')] for a byte [b] *)
Definition hex2 (b : Z) : string :=
  String (hexDigit (b / 16)) (String (hexDigit (b mod 16)) EmptyString).

(** [new TextEncoder().encode(str)]: UTF-8 *)
Definition utf8_unit (c : Z) : list Z :=
  if c <? 128 then [c] else [192 + c / 64; 128 + c mod 64].

Definition utf8_encode (s : string) : list Z :=
  flat_map utf8_unit (charCodes s).

(** Truthiness of a string value: only the empty string is falsy. *)
Definition truthy (s : string) : bool :=
  match s with EmptyString => false | _ => true end.

End JsString.

(** ** JSON values and [JSON.stringify] *)

Module Json.
Import JsString.

(** Numbers are the integer-valued ones; the properties of an object are
    listed in enumeration order (insertion order for keys that are names). *)
Inductive json : Type :=
  | JNull
  | JBool (b : bool)
  | JNum (n : Z)
  | JStr (s : string)
  | JArr (items : list json)
  | JObj (props : list (string * json)).

(** QuoteJSONString: the escapes of a single code unit. *)
Definition escapeUnit (a : ascii) : string :=
  let c := code a in
  if c =? 34 then String backslash (str1 dquote)
  else if c =? 92 then String backslash (str1 backslash)
  else if c =? 8 then String backslash "b"
  else if c =? 12 then String backslash "f"
  else if c =? 10 then String backslash "n"
  else if c =? 13 then String backslash "r"
  else if c =? 9 then String backslash "t"
  else if c <? 32 then String backslash ("u00" +:+ hex2 c)
  else str1 a.

Fixpoint escape (s : string) : string :=
  match s with
  | EmptyString => EmptyString
  | String a rest => escapeUnit a +:+ escape rest
  end.

Definition quote (s : string) : string :=
  str1 dquote +:+ escape s +:+ str1 dquote.

Fixpoint stringify (j : json) : string :=
  match j with
  | JNull => "null"
  | JBool true => "true"
  | JBool false => "false"
  | JNum n => decimal n
  | JStr s => quote s
  | JArr items => "[" +:+ join "," (map stringify items) +:+ "]"
  | JObj props =>
      "{" +:+ join "," (map (fun kv => quote (fst kv) +:+ ":" +:+ stringify (snd kv)) props)
          +:+ "}"
  end.

End Json.

(** ** SHA-256 ([crypto.subtle.digest('SHA-256', data)]) *)

Module Sha256.

Definition w32 (x : Z) : Z := x mod 2 ^ 32.

Definition rotr (n x : Z) : Z :=
  Z.lor (Z.shiftr x n) (w32 (Z.shiftl x (32 - n))).

Definition Ch (x y z : Z) : Z :=
  Z.lxor (Z.land x y) (Z.land (Z.lxor x 0xffffffff) z).

Definition Maj (x y z : Z) : Z :=
  Z.lxor (Z.lxor (Z.land x y) (Z.land x z)) (Z.land y z).

Definition bigSigma0 (x : Z) : Z := Z.lxor (Z.lxor (rotr 2 x) (rotr 13 x)) (rotr 22 x).
Definition bigSigma1 (x : Z) : Z := Z.lxor (Z.lxor (rotr 6 x) (rotr 11 x)) (rotr 25 x).
Definition smallSigma0 (x : Z) : Z := Z.lxor (Z.lxor (rotr 7 x) (rotr 18 x)) (Z.shiftr x 3).
Definition smallSigma1 (x : Z) : Z := Z.lxor (Z.lxor (rotr 17 x) (rotr 19 x)) (Z.shiftr x 10).

(** The constants of FIPS 180-4: the first 32 bits of the fractional parts
    of the cube roots (for [K]) and of the square roots (for [H0]) of the
    first primes. *)
Definition isPrime (n : Z) : bool :=
  forallb (fun d => negb (n mod d =? 0)) (map Z.of_nat (seq 2 (Z.to_nat n - 2))).

Definition primes : list Z := List.filter isPrime (map Z.of_nat (seq 2 310)).

(** The greatest [r + m] with [m < 2 ^ bits] and [(r + m) ^ 3 <= x]. *)
Fixpoint cubeRoot (bits : nat) (x r : Z) : Z :=
  match bits with
  | O => r
  | S b =>
      let r' := r + 2 ^ Z.of_nat b in
      if r' * r' * r' <=? x then cubeRoot b x r' else cubeRoot b x r
  end.

Definition K : list Z := map (fun p => w32 (cubeRoot 40 (p * 2 ^ 96) 0)) primes.

Definition H0 : list Z := map (fun p => w32 (Z.sqrt (p * 2 ^ 64))) (firstn 8 primes).

(** Big-endian bytes of [x], [n] of them. *)
Fixpoint be_bytes (n : nat) (x : Z) : list Z :=
  match n with
  | O => []
  | S m => ((x / 256 ^ Z.of_nat m) mod 256) :: be_bytes m x
  end.

Definition pad (msg : list Z) : list Z :=
  let len := Z.of_nat (length msg) in
  let zeros := Z.to_nat ((55 - len) mod 64) in
  msg ++ [0x80] ++ repeat 0 zeros ++ be_bytes 8 (8 * len).

Fixpoint words (n : nat) (bytes : list Z) : list Z :=
  match n, bytes with
  | S m, a :: b :: c :: d :: rest =>
      (((a * 256 + b) * 256 + c) * 256 + d) :: words m rest
  | _, _ => []
  end.

(** The message schedule, newest word first. *)
Fixpoint schedule (n : nat) (rev_w : list Z) : list Z :=
  match n with
  | O => rev_w
  | S m =>
      let w := w32 (smallSigma1 (nth 1 rev_w 0) + nth 6 rev_w 0
                    + smallSigma0 (nth 14 rev_w 0) + nth 15 rev_w 0) in
      schedule m (w :: rev_w)
  end.

Definition round (s : list Z) (kw : Z * Z) : list Z :=
  match s with
  | [a; b; c; d; e; f; g; h] =>
      let t1 := h + bigSigma1 e + Ch e f g + fst kw + snd kw in
      let t2 := bigSigma0 a + Maj a b c in
      [w32 (t1 + t2); a; b; c; w32 (d + t1); e; f; g]
  | _ => s
  end.

Definition compress (h : list Z) (block : list Z) : list Z :=
  let w := rev (schedule 48 (rev (words 16 block))) in
  let s := fold_left round (combine K w) h in
  map (fun p => w32 (fst p + snd p)) (combine h s).

Fixpoint blocks (n : nat) (bytes : list Z) : list (list Z) :=
  match n with
  | O => []
  | S m =>
      match bytes with
      | [] => []
      | _ => firstn 64 bytes :: blocks m (skipn 64 bytes)
      end
  end.

(** The 32 bytes of the digest. *)
Definition digest (msg : list Z) : list Z :=
  let p := pad msg in
  flat_map (be_bytes 4) (fold_left compress (blocks (length p) p) H0).

End Sha256.

(** ** Identity engine: fingerprint, label, persistence *)

Module Identity.
Import JsString Json.

Definition ADJECTIVES : list string :=
  [ "Super"; "Quick"; "Silent"; "Wild"; "Dark"; "Bright"; "Strong"; "Fast"; "Cool"; "Smart";
    "Bold"; "Swift"; "Stealth"; "Mystic"; "Noble"; "Fierce"; "Wise"; "Sharp"; "Brave"; "Calm" ]%string.

Definition ANIMALS : list string :=
  [ "Lion"; "Eagle"; "Wolf"; "Tiger"; "Bear"; "Fox"; "Hawk"; "Shark"; "Dragon"; "Panther";
    "Falcon"; "Lynx"; "Raven"; "Cobra"; "Viper"; "Jaguar"; "Puma"; "Cheetah"; "Leopard"; "Rhino" ]%string.

(** [config.fingerprintComponents] *)
Record FingerprintComponents : Type := {
  hardware : bool; browser : bool; network : bool; behavioral : bool;
  canvas : bool; webgl : bool; audio : bool; fonts : bool }.

Record Config : Type := {
  enableFingerprinting : bool;
  fingerprintPersistence : bool;
  fingerprintComponents : FingerprintComponents }.

(** What the signal providers return in this page. *)
Record Providers : Type := {
  getHardwareFingerprint : json;
  getBrowserFingerprint : json;
  getCanvasFingerprint : json;
  getWebGLFingerprint : json;
  getAudioFingerprint : json;
  getFontFingerprint : json }.

(** [hashString]: SHA-256 of the UTF-8 bytes, as 64 hexadecimal digits. *)
Definition hashString (str : string) : string :=
  join EmptyString (map hex2 (Sha256.digest (utf8_encode str))).

(** The object [components] of [generateFingerprint], property by property
    in the order of the assignments. *)
Definition collectComponents (fc : FingerprintComponents) (p : Providers)
  : list (string * json) :=
  (if hardware fc then [("hardware"%string, getHardwareFingerprint p)] else [])
  ++ (if browser fc then [("browser"%string, getBrowserFingerprint p)] else [])
  ++ (if canvas fc then [("canvas"%string, getCanvasFingerprint p)] else [])
  ++ (if webgl fc then [("webgl"%string, getWebGLFingerprint p)] else [])
  ++ (if audio fc then [("audio"%string, getAudioFingerprint p)] else [])
  ++ (if fonts fc then [("fonts"%string, getFontFingerprint p)] else []).

(** [hashString(JSON.stringify(components))] *)
Definition fingerprintOf (components : list (string * json)) : string :=
  hashString (stringify (JObj components)).

(** The record written under the key [da_fp]. *)
Record FpData : Type := {
  fp_fingerprint : option string;
  fp_label : option string;
  fp_timestamp : Z }.

(** The keys of [localStorage] this part of the code uses. *)
Record LocalStore : Type := {
  da_fp : option FpData;
  da_labels : gmap string string }.

(** The four backends; [None] is a backend whose access throws
    ([localStorage], [sessionStorage]) or is refused ([indexedDB], cookies). *)
Record Storage : Type := {
  localStorage : option LocalStore;
  sessionStorage : option (option FpData);
  indexedDB : option (gmap string FpData);
  cookie : option (option FpData) }.

Record Client : Type := {
  config : Config;
  fingerprint : option string;
  fingerprintLabel : option string;
  storage : Storage;
  errors : list string }.

Definition setStorage (c : Client) (s : Storage) : Client :=
  {| config := config c; fingerprint := fingerprint c;
     fingerprintLabel := fingerprintLabel c; storage := s; errors := errors c |}.

Definition logError (c : Client) (msg : string) : Client :=
  {| config := config c; fingerprint := fingerprint c;
     fingerprintLabel := fingerprintLabel c; storage := storage c;
     errors := errors c ++ [msg] |}.

(** [getStoredFingerprintLabel]: only [localStorage] is read; [None] is
    JavaScript's [null]. *)
Definition getStoredFingerprintLabel (c : Client) (fp : string) : option string :=
  match localStorage (storage c) with
  | None => None
  | Some ls =>
      match da_fp ls with
      | Some data =>
          if bool_decide (fp_fingerprint data = Some fp) then fp_label data else None
      | None => None
      end
  end.

(** [storeFingerprintLabel] *)
Definition storeFingerprintLabel (c : Client) (fp label : string) : Client :=
  match localStorage (storage c) with
  | None => c
  | Some ls =>
      setStorage c
        {| localStorage := Some {| da_fp := da_fp ls; da_labels := <[fp := label]> (da_labels ls) |};
           sessionStorage := sessionStorage (storage c);
           indexedDB := indexedDB (storage c);
           cookie := cookie (storage c) |}
  end.

(** [isLabelInUse] *)
Definition isLabelInUse (c : Client) (label : string) : bool :=
  match localStorage (storage c) with
  | None => false
  | Some ls => bool_decide (label ∈ (map_to_list (da_labels ls)).*2)
  end.

(** [Math.floor(r * n)] for a draw [r] of [Math.random()]; the product is
    taken exactly. *)
Definition floorMul (r : Q) (n : Z) : Z := Qfloor (r * inject_Z n).

(** [ARRAY[i]] inside a template literal. *)
Definition pick (words : list string) (i : Z) : string :=
  if i <? 0 then "undefined"%string
  else match words !! Z.to_nat i with Some w => w | None => "undefined"%string end.

(** One pass through the body of the [do ... while] loop, from three draws. *)
Definition candidate (r1 r2 r3 : Q) : string :=
  let adjective := pick ADJECTIVES (floorMul r1 (Z.of_nat (length ADJECTIVES))) in
  let animal := pick ANIMALS (floorMul r2 (Z.of_nat (length ANIMALS))) in
  let number := floorMul r3 9000 + 1000 in
  adjective +:+ animal +:+ decimal number.

(** The [do ... while] loop of [getFingerprintLabel]; [random k] is the
    [k]-th value returned by [Math.random()], [attempts] the counter of the
    code. Returns the label and the final value of [attempts]. *)
Fixpoint generateLabel (fuel : nat) (c : Client) (random : nat → Q) (attempts : nat)
  : option (string * nat) :=
  match fuel with
  | O => None
  | S fuel' =>
      let label := candidate (random (3 * attempts)%nat) (random (3 * attempts + 1)%nat)
                             (random (3 * attempts + 2)%nat) in
      let attempts := S attempts in
      if isLabelInUse c label && (attempts <? 10)%nat
      then generateLabel fuel' c random attempts
      else Some (label, attempts)
  end.

(** [getFingerprintLabel] *)
Definition getFingerprintLabel (fuel : nat) (c : Client) (random : nat → Q) (fp : string)
  : option (string * Client) :=
  match getStoredFingerprintLabel c fp with
  | Some stored =>
      if truthy stored then Some (stored, c)
      else
        match generateLabel fuel c random 0 with
        | Some (label, _) => Some (label, storeFingerprintLabel c fp label)
        | None => None
        end
  | None =>
      match generateLabel fuel c random 0 with
      | Some (label, _) => Some (label, storeFingerprintLabel c fp label)
      | None => None
      end
  end.

(** [storeFingerprintPersistently]: the first write that throws ends the
    [try] block. [storeInIndexedDB] catches its own failure; a refused cookie
    write is silent. *)
Definition storeFingerprintPersistently (now : Z) (c : Client) : Client :=
  let data := {| fp_fingerprint := fingerprint c; fp_label := fingerprintLabel c;
                 fp_timestamp := now |} in
  let s := storage c in
  match localStorage s with
  | None => logError c "Failed to store fingerprint persistently"
  | Some ls =>
      let ls' := Some {| da_fp := Some data; da_labels := da_labels ls |} in
      match sessionStorage s with
      | None =>
          logError
            (setStorage c {| localStorage := ls'; sessionStorage := None;
                             indexedDB := indexedDB s; cookie := cookie s |})
            "Failed to store fingerprint persistently"
      | Some _ =>
          setStorage c
            {| localStorage := ls';
               sessionStorage := Some (Some data);
               indexedDB :=
                 match indexedDB s, fingerprint c with
                 | Some db, Some fp => Some (<[fp := data]> db)
                 | db, _ => db
                 end;
               cookie := match cookie s with Some _ => Some (Some data) | None => None end |}
      end
  end.

(** [generateFingerprint] *)
Definition generateFingerprint (fuel : nat) (now : Z) (p : Providers) (random : nat → Q)
    (c : Client) : option Client :=
  if negb (enableFingerprinting (config c)) then Some c
  else
    let fp := fingerprintOf (collectComponents (fingerprintComponents (config c)) p) in
    match getFingerprintLabel fuel c random fp with
    | None => None
    | Some (label, c1) =>
        let c2 := {| config := config c1; fingerprint := Some fp;
                     fingerprintLabel := Some label; storage := storage c1;
                     errors := errors c1 |} in
        Some (if fingerprintPersistence (config c2)
              then storeFingerprintPersistently now c2 else c2)
    end.





(** The label built in pass [i] (from 0) of the loop. *)
Definition attempt (random : nat → Q) (i : nat) : string :=
  candidate (random (3 * i)%nat) (random (3 * i + 1)%nat) (random (3 * i + 2)%nat).


End Identity.

(** ** Deterministic bucketing: A/B tests and funnels

    The class defines [createABTest], [getABTestVariant], [createFunnel] and
    [trackFunnelStep] more than once; a later method definition of a class
    body replaces the earlier ones, so the definitions in force are the last
    ones (the "enhanced API methods"), embedded here. [localStorage] is a
    readable and writable store for these methods. *)

Module Bucketing.
Import JsString Json.

(** ToInt32 *)
Definition toInt32 (z : Z) : Z :=
  let m := z mod 2 ^ 32 in
  if m <? 2 ^ 31 then m else m - 2 ^ 32.

(** An integer below 2^53 as a number. *)
Definition num (z : Z) : float := PrimFloat.of_uint63 (Uint63.of_Z z).

(** The body of the [for] loop of [hashCode]:
    [hash = ((hash << 5) - hash) + char; hash = hash & hash]. *)
Definition hashStep (hash char : Z) : Z :=
  let hash := (toInt32 (Z.shiftl (toInt32 hash) 5) - hash) + char in
  Z.land (toInt32 hash) (toInt32 hash).

Definition hashLoop (str : string) : Z := fold_left hashStep (charCodes str) 0.

(** [hashCode] *)
Definition hashCode (str : string) : float :=
  if (String.length str =? 0)%nat then num 0
  else PrimFloat.div (num (Z.abs (hashLoop str))) (num 2147483647).

(** The values [getABTestVariant] can return. *)
Inductive jsval : Type :=
  | Undefined
  | Null
  | Str (s : string).

(** [array[i]] *)
Definition at_index (l : list string) (i : nat) : jsval :=
  match l !! i with Some s => Str s | None => Undefined end.

Record ABTest : Type := {
  variants : list string;
  trafficSplit : float;
  test_createdAt : Z }.

Record Funnel : Type := {
  steps : list string;
  funnel_createdAt : Z }.

Record StepEntry : Type := {
  step : string;
  timestamp : Z;
  properties : json }.

Record FunnelProgress : Type := {
  startedAt : Z;
  progress_steps : list StepEntry }.

(** The argument of a call to [this.sendEvent]. *)
Inductive Event : Type :=
  | ab_test_created (testName : string) (vs : list string) (split : float)
      (fingerprint : string) (time : Z)
  | funnel_created (funnelName : string) (ss : list string) (fingerprint : string) (time : Z)
  | funnel_progress (type : string) (funnelName stepName : string) (stepIndex : Z)
      (totalSteps : nat) (completed : bool) (props : json) (fingerprint : string) (time : Z).

(** The instance: [this.fingerprintLabel] as it prints in a template literal,
    the four [localStorage] keys, the calls to [this.sendEvent] and the
    warnings passed to [this.log], oldest first. *)
Record Client : Type := {
  fingerprintLabel : string;
  da_ab_tests : gmap string ABTest;
  da_ab_assignments : gmap string string;
  da_funnels : gmap string Funnel;
  da_user_funnels : gmap string FunnelProgress;
  events : list Event;
  warnings : list string }.

Definition init (label : string) : Client :=
  {| fingerprintLabel := label; da_ab_tests := ∅; da_ab_assignments := ∅;
     da_funnels := ∅; da_user_funnels := ∅; events := []; warnings := [] |}.

(** [`${this.fingerprintLabel}_${name}`] *)
Definition userKey (c : Client) (name : string) : string :=
  fingerprintLabel c +:+ "_" +:+ name.

(** [createABTest] *)
Definition createABTest (now : Z) (testName : string) (vs : list string) (split : float)
    (c : Client) : Client :=
  {| fingerprintLabel := fingerprintLabel c;
     da_ab_tests :=
       <[testName := {| variants := vs; trafficSplit := split; test_createdAt := now |}]>
         (da_ab_tests c);
     da_ab_assignments := da_ab_assignments c;
     da_funnels := da_funnels c;
     da_user_funnels := da_user_funnels c;
     events := events c ++ [ab_test_created testName vs split (fingerprintLabel c) now];
     warnings := warnings c |}.

(** [assignments[userKey] = variant] followed by [JSON.stringify]: a
    property whose value is [undefined] is not written (the variant computed
    is a string or [undefined], never [null]). *)
Definition assign (key : string) (variant : jsval) (m : gmap string string)
  : gmap string string :=
  match variant with
  | Str s => <[key := s]> m
  | _ => delete key m
  end.

Definition setAssignments (c : Client) (m : gmap string string) : Client :=
  {| fingerprintLabel := fingerprintLabel c; da_ab_tests := da_ab_tests c;
     da_ab_assignments := m; da_funnels := da_funnels c;
     da_user_funnels := da_user_funnels c; events := events c;
     warnings := warnings c |}.

(** The variant computed when no assignment is found. *)
Definition chooseVariant (c : Client) (testName : string) (test : ABTest) : jsval :=
  let hash := hashCode (fingerprintLabel c +:+ testName) in
  if PrimFloat.ltb hash (trafficSplit test)
  then at_index (variants test) 0
  else at_index (variants test) 1.

(** [getABTestVariant] *)
Definition getABTestVariant (testName : string) (c : Client) : jsval * Client :=
  let key := userKey c testName in
  let compute :=
    match da_ab_tests c !! testName with
    | None => (Null, c)
    | Some test =>
        let variant := chooseVariant c testName test in
        (variant, setAssignments c (assign key variant (da_ab_assignments c)))
    end in
  match da_ab_assignments c !! key with
  | Some v => if truthy v then (Str v, c) else compute
  | None => compute
  end.

(** [createFunnel] *)
Definition createFunnel (now : Z) (funnelName : string) (ss : list string) (c : Client)
  : Client :=
  {| fingerprintLabel := fingerprintLabel c;
     da_ab_tests := da_ab_tests c;
     da_ab_assignments := da_ab_assignments c;
     da_funnels := <[funnelName := {| steps := ss; funnel_createdAt := now |}]> (da_funnels c);
     da_user_funnels := da_user_funnels c;
     events := events c ++ [funnel_created funnelName ss (fingerprintLabel c) now];
     warnings := warnings c |}.

(** [array.indexOf(x)] *)
Fixpoint indexOf (x : string) (l : list string) : Z :=
  match l with
  | [] => -1
  | y :: rest =>
      if String.eqb x y then 0
      else let i := indexOf x rest in if i =? -1 then -1 else i + 1
  end.

(** [array.includes(x)] *)
Definition includes (x : string) (l : list string) : bool := existsb (String.eqb x) l.

Definition warn (c : Client) (msg : string) : Client :=
  {| fingerprintLabel := fingerprintLabel c; da_ab_tests := da_ab_tests c;
     da_ab_assignments := da_ab_assignments c; da_funnels := da_funnels c;
     da_user_funnels := da_user_funnels c; events := events c;
     warnings := warnings c ++ [msg] |}.

(** [funnel.steps.every(step => completedSteps.includes(step))] *)
Definition isComplete (funnel : Funnel) (entries : list StepEntry) : bool :=
  let completedSteps := map step entries in
  forallb (fun s => includes s completedSteps) (steps funnel).

(** [trackFunnelStep]; the calls to [Date.now()] of one invocation read [now]. *)
Definition trackFunnelStep (now : Z) (funnelName stepName : string) (props : json)
    (c : Client) : Client :=
  match da_funnels c !! funnelName with
  | None => warn c ("Funnel not found: " +:+ funnelName)
  | Some funnel =>
      let stepIndex := indexOf stepName (steps funnel) in
      if stepIndex =? -1
      then warn c ("Step not found in funnel " +:+ funnelName +:+ ": " +:+ stepName)
      else
        let key := userKey c funnelName in
        let progress :=
          match da_user_funnels c !! key with
          | Some p => p
          | None => {| startedAt := now; progress_steps := [] |}
          end in
        let progress :=
          {| startedAt := startedAt progress;
             progress_steps := progress_steps progress
               ++ [{| step := stepName; timestamp := now; properties := props |}] |} in
        let complete := isComplete funnel (progress_steps progress) in
        {| fingerprintLabel := fingerprintLabel c;
           da_ab_tests := da_ab_tests c;
           da_ab_assignments := da_ab_assignments c;
           da_funnels := da_funnels c;
           da_user_funnels := <[key := progress]> (da_user_funnels c);
           events := events c ++
             [funnel_progress (if complete then "funnel_completed" else "funnel_step")
                funnelName stepName stepIndex (length (steps funnel)) complete props
                (fingerprintLabel c) now];
           warnings := warnings c |}
  end.

(** [getFunnelData] *)
Definition getFunnelData (funnelName : string) (c : Client) : option FunnelProgress :=
  da_user_funnels c !! userKey c funnelName.

(** A call of the caller-facing API, with the time at which it is made. *)
Inductive Call : Type :=
  | CallCreateABTest (now : Z) (testName : string) (vs : list string) (split : float)
  | CallGetABTestVariant (testName : string)
  | CallCreateFunnel (now : Z) (funnelName : string) (ss : list string)
  | CallTrackFunnelStep (now : Z) (funnelName stepName : string) (props : json).

Definition call (c : Client) (k : Call) : Client :=
  match k with
  | CallCreateABTest now t vs split => createABTest now t vs split c
  | CallGetABTestVariant t => snd (getABTestVariant t c)
  | CallCreateFunnel now f ss => createFunnel now f ss c
  | CallTrackFunnelStep now f s props => trackFunnelStep now f s props c
  end.

Definition calls (c : Client) (ks : list Call) : Client := fold_left call ks c.



Definition completedEvents (c : Client) : list Event :=
  List.filter (fun e => match e with
                        | funnel_progress type _ _ _ _ _ _ _ _ => String.eqb type "funnel_completed"
                        | _ => false
                        end) (events c).

End Bucketing.

(** ** Delivery pipeline

    [sendToDiscord], [queueEvent] and [flushEventQueue] call one another, and
    a transmission that keeps failing while the client is online is retried
    without bound, so the three functions take fuel. An awaited [fetch] is
    resumed before anything else runs: the pipeline is followed along the
    schedule in which every response arrives at once. The inter-send
    [delay(100)] has no effect on the state. *)

Module Delivery.

(** What [fetch] gives: a response with a status, or a rejection. *)
Inductive Response : Type :=
  | Status (code : Z)
  | NetworkError.

(** [response.ok] *)
Definition ok (r : Response) : bool :=
  match r with
  | Status code => (200 <=? code) && (code <=? 299)
  | NetworkError => false
  end.

Section Pipeline.
Context {Embed : Type}.

(** [fetch n e]: the outcome of the [n]-th call to [fetch] (from 0),
    made with the payload of [e]. *)
Variable fetch : nat → Embed → Response.

(** [this.eventQueue], [this.isOnline], [this.config.batchSize], and the
    calls to [fetch] made so far with their outcomes, oldest first. *)
Record Pipeline : Type := {
  eventQueue : list Embed;
  isOnline : bool;
  batchSize : nat;
  requests : list (Embed * Response) }.

Definition setQueue (st : Pipeline) (q : list Embed) : Pipeline :=
  {| eventQueue := q; isOnline := isOnline st; batchSize := batchSize st;
     requests := requests st |}.

Definition setOnline (st : Pipeline) (b : bool) : Pipeline :=
  {| eventQueue := eventQueue st; isOnline := b; batchSize := batchSize st;
     requests := requests st |}.

Definition request (st : Pipeline) (e : Embed) : Response * Pipeline :=
  let r := fetch (length (requests st)) e in
  (r, {| eventQueue := eventQueue st; isOnline := isOnline st;
         batchSize := batchSize st; requests := requests st ++ [(e, r)] |}).

(** The [for ... of] loop of [flushEventQueue]. *)
Fixpoint forEach (send : Embed → Pipeline → option Pipeline) (events : list Embed)
    (st : Pipeline) : option Pipeline :=
  match events with
  | [] => Some st
  | e :: rest =>
      match send e st with
      | Some st' => forEach send rest st'
      | None => None
      end
  end.

(** [sendToDiscord], [queueEvent], [flushEventQueue] *)
Fixpoint sendToDiscord (fuel : nat) (embed : Embed) (st : Pipeline) : option Pipeline :=
    match fuel with
    | O => None
    | S fuel' =>
        let (response, st) := request st embed in
        if ok response then Some st
        else if isOnline st then queueEvent fuel' embed st
        else Some st
    end
  with queueEvent (fuel : nat) (embed : Embed) (st : Pipeline) : option Pipeline :=
    match fuel with
    | O => None
    | S fuel' =>
        let st := setQueue st (eventQueue st ++ [embed]) in
        if (batchSize st <=? length (eventQueue st))%nat
        then flushEventQueue fuel' st
        else Some st
    end
  with flushEventQueue (fuel : nat) (st : Pipeline) : option Pipeline :=
    match fuel with
    | O => None
    | S fuel' =>
        match eventQueue st with
        | [] => Some st
        | _ =>
            let events := take (batchSize st) (eventQueue st) in
            let st := setQueue st (drop (batchSize st) (eventQueue st)) in
            forEach (sendToDiscord fuel') events st
        end
    end.


(** [sendEvent], from the embed on; [pass] is the answer of
    [shouldSendEvent]. *)
Definition sendEvent (fuel : nat) (pass priority : bool) (embed : Embed) (st : Pipeline)
  : option Pipeline :=
  if negb pass then Some st
  else if priority || isOnline st then sendToDiscord fuel embed st
  else queueEvent fuel embed st.


Definition onOffline (st : Pipeline) : Pipeline := setOnline st false.


(** The embeds whose transmission was acknowledged. *)
Definition delivered (st : Pipeline) : list Embed :=
  map fst (filter (fun er => ok (snd er) = true) (requests st)).

(** The embeds handed to [fetch], in the order of the calls. *)
Definition transmitted (st : Pipeline) : list Embed := map fst (requests st).

(** The state after the embeds have been handed to [fetch] one by one. *)
Definition requestAll (es : list Embed) (st : Pipeline) : Pipeline :=
  fold_left (fun st e => snd (request st e)) es st.

End Pipeline.

Arguments Pipeline : clear implicits.

End Delivery.

(** ** The selection of a variant as the specification words it *)

Module Spec.
Import Bucketing.




End Spec.

(** ** Clients, tests and networks used in the examples *)

Module IdentityScenarios.
Import JsString Json Identity.

(** The text with every apostrophe turned into a double quote, to write the
    expected output of [JSON.stringify]. *)
Fixpoint quoted (s : string) : string :=
  match s with
  | EmptyString => EmptyString
  | String a rest => String (if (code a =? 39)%Z then dquote else a) (quoted rest)
  end.

Definition bundle1 : list (string * json) :=
  [("screen"%string, JStr "1920x1080x24"); ("lang"%string, JStr "en-US")].

Definition bundle2 : list (string * json) :=
  [("lang"%string, JStr "en-US"); ("screen"%string, JStr "1920x1080x24")].

Definition allComponents : FingerprintComponents :=
  {| hardware := true; browser := true; network := true; behavioral := true;
     canvas := true; webgl := true; audio := true; fonts := true |}.

Definition sampleProviders : Providers :=
  {| getHardwareFingerprint := JObj [("screen"%string, JStr "1920x1080x24")];
     getBrowserFingerprint := JObj [("language"%string, JStr "en-US")];
     getCanvasFingerprint := JStr "canvas_error";
     getWebGLFingerprint := JStr "no_webgl";
     getAudioFingerprint := JStr "audio_error";
     getFontFingerprint := JArr [JStr "Arial"] |}.

Definition emptyStorage : Storage :=
  {| localStorage := Some {| da_fp := None; da_labels := ∅ |};
     sessionStorage := Some None; indexedDB := Some ∅; cookie := Some None |}.

Definition freshClient : Client :=
  {| config := {| enableFingerprinting := true; fingerprintPersistence := true;
                  fingerprintComponents := allComponents |};
     fingerprint := None; fingerprintLabel := None; storage := emptyStorage;
     errors := [] |}.

(** A client whose label has been assigned, with [localStorage] out of reach
    and the three other backends working. *)
Definition noLocalStorage : Client :=
  {| config := config freshClient;
     fingerprint := Some "f00d"%string;
     fingerprintLabel := Some "SuperLion1000"%string;
     storage := {| localStorage := None; sessionStorage := Some None;
                   indexedDB := Some ∅; cookie := Some None |};
     errors := [] |}.

(** A client whose [localStorage] has been emptied while [sessionStorage]
    and the cookie still hold the record. *)
Definition clearedLocalStorage : Client :=
  let data := {| fp_fingerprint := Some "f00d"%string;
                 fp_label := Some "SuperLion1000"%string; fp_timestamp := 1000 |} in
  {| config := config freshClient;
     fingerprint := Some "f00d"%string;
     fingerprintLabel := Some "SuperLion1000"%string;
     storage := {| localStorage := Some {| da_fp := None; da_labels := ∅ |};
                   sessionStorage := Some (Some data);
                   indexedDB := Some {[ "f00d"%string := data ]};
                   cookie := Some (Some data) |};
     errors := [] |}.

(** A client whose [sessionStorage], IndexedDB and cookies are all out of
    reach. *)
Definition onlyLocalStorage : Client :=
  {| config := config freshClient;
     fingerprint := Some "f00d"%string;
     fingerprintLabel := Some "SuperLion1000"%string;
     storage := {| localStorage := Some {| da_fp := None; da_labels := ∅ |};
                   sessionStorage := None; indexedDB := None; cookie := None |};
     errors := [] |}.

End IdentityScenarios.

Module BucketingScenarios.
Import JsString Json Bucketing.



Definition signupFunnel : Funnel :=
  {| steps := ["signup_form"%string]; funnel_createdAt := 1000 |}.

Definition signupProgress : FunnelProgress :=
  {| startedAt := 2000;
     progress_steps := [{| step := "signup_form"; timestamp := 2000; properties := JNull |}] |}.

Definition signedUp : Client :=
  trackFunnelStep 2000 "signup_flow" "signup_form" JNull
    (createFunnel 1000 "signup_flow" ["signup_form"%string] (init "QuickEagle7291")).



End BucketingScenarios.

Module DeliveryScenarios.
Import Delivery.

(** A network that is down: every request is rejected. *)
Definition down : nat → nat → Response := fun _ _ => NetworkError.


Definition offlineClient : Pipeline nat :=
  {| eventQueue := []; isOnline := false; batchSize := 10; requests := [] |}.

Definition onlineClient : Pipeline nat :=
  {| eventQueue := [1; 2; 3]%nat; isOnline := true; batchSize := 10; requests := [] |}.

End DeliveryScenarios.

(** ** Health report *)

Module Health.
Import Delivery.



End Health.

(** ** User journey

    Two parts of the class keep a journey under the same key
    [da_user_journey] of [localStorage]: the method [trackUserJourney] of the
    caller-facing API, which works on the stored array, and
    [initUserJourney] / [trackJourneyStep], which work on the array
    [this.userJourney] of the instance and write it back. [localStorage] is a
    readable and writable store for these methods. *)

Module Journey.
Import JsString Json.

(** An element of the stored array: the record pushed by [trackUserJourney]
    or the one pushed by [trackJourneyStep]. *)
Inductive Entry : Type :=
| ApiEvent (event : string) (properties : json) (timestamp : Z) (page : string)
| PageStep (url title referrer : string) (timestamp : Z) (sessionId fingerprint : string).

(** The argument of a call to [this.sendEvent]. *)
Inductive Sent : Type :=
| SentEvent (event : string) (properties : json) (fingerprint : string) (time : Z)
| SentStep (step : Entry) (journeyLength : nat) (fingerprint : string) (time : Z).

(** [this.userJourney], the value under [da_user_journey] ([None]: no such
    key), [this.sessionId], the label, and the calls to [this.sendEvent]. *)
Record Client : Type := {
  userJourney : list Entry;
  da_user_journey : option (list Entry);
  sessionId : string;
  fingerprintLabel : string;
  sent : list Sent }.

(** [array.slice(-n)] for a positive [n] *)
Definition lastN {A : Type} (n : nat) (l : list A) : list A := drop (length l - n) l.

(** [JSON.parse(localStorage.getItem('da_user_journey') || '[]')] *)
Definition getUserJourney (c : Client) : list Entry :=
  match da_user_journey c with
  | Some journey => journey
  | None => []
  end.

(** [trackUserJourney]; [page] is [window.location.pathname]. *)
Definition trackUserJourney (now : Z) (page event : string) (props : json) (c : Client)
  : Client :=
  let journey := getUserJourney c ++ [ApiEvent event props now page] in
  let journey :=
    if (100 <? length journey)%nat
    then drop (length journey - 100) journey
    else journey in
  {| userJourney := userJourney c;
     da_user_journey := Some journey;
     sessionId := sessionId c;
     fingerprintLabel := fingerprintLabel c;
     sent := sent c ++ [SentEvent event props (fingerprintLabel c) now] |}.

(** [loadUserJourney] *)
Definition loadUserJourney (c : Client) : list Entry :=
  match da_user_journey c with
  | Some journey => journey
  | None => []
  end.

(** [trackJourneyStep], with [storeUserJourney]; [url], [title] and
    [referrer] are those of the document. *)
Definition trackJourneyStep (now : Z) (url title referrer : string) (c : Client) : Client :=
  let step := PageStep url title referrer now (sessionId c) (fingerprintLabel c) in
  let journey := userJourney c ++ [step] in
  let journey := if (50 <? length journey)%nat then lastN 25 journey else journey in
  {| userJourney := journey;
     da_user_journey := Some journey;
     sessionId := sessionId c;
     fingerprintLabel := fingerprintLabel c;
     sent := sent c ++ [SentStep step (length journey) (fingerprintLabel c) now] |}.

(** [initUserJourney] *)
Definition initUserJourney (now : Z) (url title referrer : string) (c : Client) : Client :=
  trackJourneyStep now url title referrer
    {| userJourney := loadUserJourney c;
       da_user_journey := da_user_journey c;
       sessionId := sessionId c;
       fingerprintLabel := fingerprintLabel c;
       sent := sent c |}.

(** The page views of a session, each a call of [trackJourneyStep]. *)
Record PageView : Type := {
  view_time : Z; view_url : string; view_title : string; view_referrer : string }.

Definition visit (c : Client) (v : PageView) : Client :=
  trackJourneyStep (view_time v) (view_url v) (view_title v) (view_referrer v) c.

Definition stepOf (c : Client) (v : PageView) : Entry :=
  PageStep (view_url v) (view_title v) (view_referrer v) (view_time v)
    (sessionId c) (fingerprintLabel c).

(** The calls of [trackUserJourney] of a session. *)
Record Tracked : Type := {
  tracked_time : Z; tracked_page : string; tracked_event : string; tracked_props : json }.

Definition track (c : Client) (t : Tracked) : Client :=
  trackUserJourney (tracked_time t) (tracked_page t) (tracked_event t) (tracked_props t) c.

Definition entryOf (t : Tracked) : Entry :=
  ApiEvent (tracked_event t) (tracked_props t) (tracked_time t) (tracked_page t).

End Journey.

(** ** Session replay buffer *)

Module Replay.
Import JsString.

(** What [recordInteraction] adds to a record, by event type. *)
Inductive Detail : Type :=
| Coordinates (x y : Z)
| Scroll (x y : Z)
| ValueLength (n : nat)
| NoDetail.

(** A record of [this.sessionReplayData]: of a mutation ([recordMutation],
    with the selectors or texts of the added and removed nodes when the
    mutation is a [childList]) or of an interaction. *)
Inductive ReplayRecord : Type :=
| Mutation (mutationType target : string) (timestamp : Z)
    (nodes : option (list string * list string))
| Interaction (eventType target : string) (timestamp : Z) (detail : Detail).

(** [limitReplayData] *)
Definition limitReplayData (data : list ReplayRecord) : list ReplayRecord :=
  if (1000 <? length data)%nat then drop (length data - 500) data else data.

(** The event as [recordInteraction] reads it: the coordinates of the
    pointer, the scroll offsets of the window, the value of the target. *)
Record DomEvent : Type := {
  clientX : Z; clientY : Z; scrollX : Z; scrollY : Z; value : string }.

(** [recordInteraction]; [target] is the selector of the target element. *)
Definition recordInteraction (now : Z) (eventType target : string) (ev : DomEvent)
    (data : list ReplayRecord) : list ReplayRecord :=
  let detail :=
    if String.eqb eventType "click" then Coordinates (clientX ev) (clientY ev)
    else if String.eqb eventType "scroll" then Scroll (scrollX ev) (scrollY ev)
    else if String.eqb eventType "input"
      then ValueLength (if truthy (value ev) then String.length (value ev) else 0)
    else NoDetail in
  limitReplayData (data ++ [Interaction eventType target now detail]).

(** [recordMutation]; [added] and [removed] are the selectors or texts of
    the nodes of the mutation. *)
Definition recordMutation (now : Z) (mutationType target : string)
    (added removed : list string) (data : list ReplayRecord) : list ReplayRecord :=
  let nodes := if String.eqb mutationType "childList" then Some (added, removed) else None in
  limitReplayData (data ++ [Mutation mutationType target now nodes]).

(** What the observers and listeners of [setupReplayTracking] report. *)
Inductive Observed : Type :=
| ObservedMutation (now : Z) (mutationType target : string) (added removed : list string)
| ObservedInteraction (now : Z) (eventType target : string) (ev : DomEvent).

Definition record (data : list ReplayRecord) (o : Observed) : list ReplayRecord :=
  match o with
  | ObservedMutation now mutationType target added removed =>
      recordMutation now mutationType target added removed data
  | ObservedInteraction now eventType target ev =>
      recordInteraction now eventType target ev data
  end.

(** The record an observation gives. *)
Definition recordOf (o : Observed) : ReplayRecord :=
  match o with
  | ObservedMutation now mutationType target added removed =>
      Mutation mutationType target now
        (if String.eqb mutationType "childList" then Some (added, removed) else None)
  | ObservedInteraction now eventType target ev =>
      Interaction eventType target now
        (if String.eqb eventType "click" then Coordinates (clientX ev) (clientY ev)
         else if String.eqb eventType "scroll" then Scroll (scrollX ev) (scrollY ev)
         else if String.eqb eventType "input"
           then ValueLength (if truthy (value ev) then String.length (value ev) else 0)
         else NoDetail)
  end.

End Replay.

(** ** Masking of personal data in forms *)

Module Privacy.
Import JsString.

(** [c.toLowerCase()] for a code unit below 256: the letters A to Z and the
    capital letters of Latin-1 (U+00C0 to U+00DE, the multiplication sign
    apart). *)
Definition lowerUnit (a : ascii) : ascii :=
  let c := code a in
  if ((65 <=? c) && (c <=? 90)) || ((192 <=? c) && (c <=? 222) && negb (c =? 215))
  then chr (c + 32) else a.

(** [str.toLowerCase()] *)
Fixpoint toLowerCase (s : string) : string :=
  match s with
  | EmptyString => EmptyString
  | String a rest => String (lowerUnit a) (toLowerCase rest)
  end.

(** [str.includes(search)] *)
Fixpoint includes (search str : string) : bool :=
  String.prefix search str
  || match str with
     | EmptyString => false
     | String _ rest => includes search rest
     end.

Definition piiFields : list string :=
  ["password"; "email"; "phone"; "ssn"; "creditcard"; "credit-card"; "cc"]%string.

(** [isPII] *)
Definition isPII (fieldName : string) : bool :=
  existsb (fun field => includes field (toLowerCase fieldName)) piiFields.

(** A value of a [FormData] entry. *)
Inductive FormValue : Type :=
| Text (s : string)
| File.

(** [fields[key] = value] on an object [fields] that has [key] or not. *)
Fixpoint assign (key value : string) (fields : list (string * string))
  : list (string * string) :=
  match fields with
  | [] => [(key, value)]
  | (k, v) :: rest =>
      if String.eqb k key then (k, value) :: rest else (k, v) :: assign key value rest
  end.

(** [fields[key] = value] on the object literal [fields], where [value] is a
    string: the name [__proto__] reaches the setter of [Object.prototype],
    which ignores a value that is neither an object nor [null]. The list
    keeps the properties in the order they were made, which is the order of
    [Object.keys] for names that are not array indices. *)
Definition setField (key value : string) (fields : list (string * string))
  : list (string * string) :=
  if String.eqb key "__proto__" then fields else assign key value fields.

(** [typeof value === 'string' ? value.substring(0, 100) : '[file]'] *)
Definition fieldValue (value : FormValue) : string :=
  match value with
  | Text s => String.substring 0 100 s
  | File => "[file]"%string
  end.

(** The loop of [trackFormSubmission] over [formData.entries()]. *)
Definition collectFields (maskPII : bool) (entries : list (string * FormValue))
  : list (string * string) :=
  fold_left
    (fun fields entry =>
       if negb maskPII || negb (isPII (fst entry))
       then setField (fst entry) (fieldValue (snd entry)) fields
       else fields)
    entries [].

(** The property [form.fields] of the event of [trackFormSubmission]:
    [this.config.maskPII ? Object.keys(fields) : fields]. *)
Inductive Reported : Type :=
| Names (names : list string)
| Fields (fields : list (string * string)).

Definition reportedFields (maskPII : bool) (entries : list (string * FormValue)) : Reported :=
  let fields := collectFields maskPII entries in
  if maskPII then Names (map fst fields) else Fields fields.

End Privacy.

(** ** Consent cookie *)

Module Consent.
Import JsString.

(** [s.split(sep)] for a separator that is not empty: [piece] is the part
    read since the last separator, [skip] the number of characters of a
    separator found that are still to pass. *)
Fixpoint splitFrom (sep : string) (skip : nat) (piece : string) (s : string) : list string :=
  match s with
  | EmptyString => [piece]
  | String a rest =>
      match skip with
      | S skip' => splitFrom sep skip' piece rest
      | O =>
          if String.prefix sep s
          then piece :: splitFrom sep (String.length sep - 1) EmptyString rest
          else splitFrom sep 0 (piece +:+ String a EmptyString) rest
      end
  end.

Definition split (sep s : string) : list string := splitFrom sep 0 EmptyString s.

(** [getCookie]; [cookie] is [document.cookie], [None] is [null]. *)
Definition getCookie (cookie name : string) : option string :=
  let value := "; " +:+ cookie in
  let parts := split ("; " +:+ name +:+ "=") value in
  if (length parts =? 2)%nat
  then match last parts with
       | Some part => head (split ";" part)
       | None => None
       end
  else None.

(** [hasConsent] *)
Definition hasConsent (requireConsent : bool) (consentCookieName cookie : string) : bool :=
  if negb requireConsent then true
  else match getCookie cookie consentCookieName with
       | Some consent => String.eqb consent "true" || String.eqb consent "1"
       | None => false
       end.

(** What [document.cookie] reads for the cookies of the page, each a name
    and a value, in the order of the browser. *)
Definition documentCookie (jar : list (string * string)) : string :=
  join "; " (map (fun c => fst c +:+ "=" +:+ snd c) jar).

Fixpoint occurs (a : ascii) (s : string) : bool :=
  match s with
  | EmptyString => false
  | String b rest => Ascii.eqb a b || occurs a rest
  end.

(** The name of a cookie is not empty and holds neither [;] nor [=]; a
    value holds no [;]. *)
Definition nameOk (name : string) : bool :=
  truthy name && negb (occurs ";" name) && negb (occurs "=" name).

Definition cookieOk (c : string * string) : bool :=
  nameOk (fst c) && negb (occurs ";" (snd c)).

(** The cookies of the jar that have the name. *)
Definition named (name : string) (jar : list (string * string)) : list (string * string) :=
  List.filter (fun c => String.eqb (fst c) name) jar.

(** A cookie as it stands in [; ] followed by [document.cookie]. *)
Definition block (c : string * string) : string := "; " +:+ fst c +:+ "=" +:+ snd c.

Definition blocks (jar : list (string * string)) : string :=
  fold_right (fun c rest => block c +:+ rest) EmptyString jar.

(** The parts [split] makes of the blocks of a jar. *)
Fixpoint pieces (name piece : string) (jar : list (string * string)) : list string :=
  match jar with
  | [] => [piece]
  | c :: rest =>
      if String.eqb (fst c) name then piece :: pieces name (snd c) rest
      else pieces name (piece +:+ block c) rest
  end.

End Consent.

(** ** Notions used in the further properties *)

Module Notions.

(** A lower-case hexadecimal digit. *)
Definition isLowerHex (a : ascii) : bool :=
  existsb (Ascii.eqb a) (list_ascii_of_string "0123456789abcdef").

End Notions.

(** ** Situations of the further properties *)

Module DeliveryCases.
Import Delivery.

(** An endpoint that acknowledges every request. *)
Definition up : nat → nat → Response := fun _ _ => Status 204.

(** An online client with twelve embeds waiting. *)
Definition backlog : Pipeline nat :=
  {| eventQueue := seq 1 12; isOnline := true; batchSize := 10; requests := [] |}.

(** An online client whose queue is one embed short of a batch. *)
Definition almostFull : Pipeline nat :=
  {| eventQueue := seq 1 9; isOnline := true; batchSize := 10; requests := [] |}.

End DeliveryCases.

Module IdentityCases.
Import Identity IdentityScenarios.

(** A first visit with persistence switched off. *)
Definition withoutPersistence : Client :=
  {| config := {| enableFingerprinting := true; fingerprintPersistence := false;
                  fingerprintComponents := allComponents |};
     fingerprint := None; fingerprintLabel := None; storage := emptyStorage;
     errors := [] |}.

End IdentityCases.

Module BucketingCases.
Import JsString Json Bucketing.

Definition twoBanners : ABTest :=
  {| variants := ["a"; "b"]%string; trafficSplit := 0.5; test_createdAt := 1000 |}.

Definition declared : Client :=
  createABTest 1000 "banner" ["a"; "b"]%string 0.5 (init "QuickEagle7291").

Definition twoSteps : Funnel :=
  {| steps := ["landing"; "signup_form"]%string; funnel_createdAt := 1000 |}.

Definition landed : Client :=
  trackFunnelStep 1500 "signup_flow" "landing" JNull
    (createFunnel 1000 "signup_flow" ["landing"; "signup_form"]%string
       (init "QuickEagle7291")).

End BucketingCases.

Module JourneyCases.
Import JsString Json Journey Replay.

Definition newVisitor : Client :=
  {| userJourney := []; da_user_journey := None; sessionId := "k2j5x1";
     fingerprintLabel := "QuickEagle7291"; sent := [] |}.

Definition purchase : Tracked :=
  {| tracked_time := 2000; tracked_page := "/cart"; tracked_event := "purchase";
     tracked_props := JNull |}.

Definition thanksPage : PageView :=
  {| view_time := 3000; view_url := "https://example.org/thanks"; view_title := "Thanks";
     view_referrer := "" |}.

(** A visitor for whom [trackUserJourney] has been called sixty times. *)
Definition busyVisitor : Client :=
  fold_left track (replicate 60 purchase) newVisitor.

Definition buyClick : Observed :=
  ObservedInteraction 4000 "click" "button#buy"
    {| clientX := 10; clientY := 20; scrollX := 0; scrollY := 0; value := "" |}.

End JourneyCases.

Module ConsentCases.

Definition consented : list (string * string) :=
  [("theme", "dark"); ("analytics_consent", "true"); ("da_fp", "%7B%7D")]%string.

End ConsentCases.

(** * Properties *)

(** ** Fingerprint *)

Section Fingerprint.
Import JsString Json Identity IdentityScenarios.

Example hashString_abc :
  hashString "abc" = "ba7816bf8f01cfea414140de5dae2223b00361a396177a9cb410ff61f20015ad"%string.
Proof. vm_compute. reflexivity. Qed.

Example hashString_two_blocks :
  hashString "abcdbcdecdefdefgefghfghighijhijkijkljklmklmnlmnomnopnopq"
  = "248d6a61d20638b8e5c026930c3e6039a33ce45964ff2167f6ecedd419db06c1"%string.
Proof. vm_compute. reflexivity. Qed.

Example sha256_constants :
  length Sha256.K = 64%nat
  ∧ Sha256.K !! 0%nat = Some 0x428a2f98 ∧ Sha256.K !! 63%nat = Some 0xc67178f2
  ∧ Sha256.H0 !! 0%nat = Some 0x6a09e667 ∧ Sha256.H0 !! 7%nat = Some 0x5be0cd19.
Proof. vm_compute. repeat split; reflexivity. Qed.

Example stringify_nested :
  stringify (JObj [("a"%string, JArr [JNum 1; JNull; JBool true; JNum (-5)]);
                   ("b"%string, JObj [("c"%string, JStr "x/y")])])
  = quoted "{'a':[1,null,true,-5],'b':{'c':'x/y'}}".
Proof. vm_compute. reflexivity. Qed.

Example stringify_bundle :
  stringify (JObj bundle1) = quoted "{'screen':'1920x1080x24','lang':'en-US'}"
  ∧ stringify (JObj bundle2) = quoted "{'lang':'en-US','screen':'1920x1080x24'}".
Proof. vm_compute. split; reflexivity. Qed.





  (** The loop of [getFingerprintLabel] stops: ten units of fuel are enough. *)
Lemma generateLabel_total c random : ∀ fuel attempts,
  (1 ≤ fuel)%nat → (10 ≤ fuel + attempts)%nat →
  ∃ label n, generateLabel fuel c random attempts = Some (label, n).
Proof.
  induction fuel as [|fuel IH]; intros attempts Hpos Hfuel; [lia|].
  cbn [generateLabel].
  destruct (isLabelInUse c _ && (S attempts <? 10)%nat) eqn:Hgo; [|eauto].
  apply andb_true_iff in Hgo as [_ Hlt%Nat.ltb_lt].
  apply IH; lia.
Qed.

Lemma getFingerprintLabel_total c random fp fuel :
  (10 ≤ fuel)%nat → ∃ label c', getFingerprintLabel fuel c random fp = Some (label, c').
Proof.
  intros Hfuel. unfold getFingerprintLabel.
  destruct (generateLabel_total c random fuel 0) as (label & n & ->); [lia..|].
  destruct (getStoredFingerprintLabel c fp) as [stored|]; [|eauto].
  destruct (truthy stored); eauto.
Qed.

Lemma storeFingerprintPersistently_fingerprint now c :
  fingerprint (storeFingerprintPersistently now c) = fingerprint c.
Proof.
  unfold storeFingerprintPersistently.
  destruct (localStorage (storage c)); [|done].
  by destruct (sessionStorage (storage c)).
Qed.


(** The serialization itself follows the order of the keys: the same entries
    listed in another order have another digest. The invariant below rests on
    the fixed order in which [generateFingerprint] assembles the bundle. *)
Lemma fingerprintOf_key_order_sensitive :
  bundle1 ≡ₚ bundle2
  ∧ fingerprintOf bundle1
    = "49703f0104551ed01667f42eac56f7320db20bd84646539b93ae57b4f980f04f"%string
  ∧ fingerprintOf bundle2
    = "2d70fac9face4b730f9665ec99705b406366f7ef987970c7be6b5ce3d69f48a0"%string
  ∧ fingerprintOf bundle1 ≠ fingerprintOf bundle2.
Proof.
  assert (fingerprintOf bundle1
          = "49703f0104551ed01667f42eac56f7320db20bd84646539b93ae57b4f980f04f"%string) as H1
    by (vm_compute; reflexivity).
  assert (fingerprintOf bundle2
          = "2d70fac9face4b730f9665ec99705b406366f7ef987970c7be6b5ce3d69f48a0"%string) as H2
    by (vm_compute; reflexivity).
  split; [apply Permutation_swap|].
  split; [exact H1|]. split; [exact H2|].
  rewrite H1, H2. discriminate.
Qed.



End Fingerprint.

(** ** Label generation *)

Section Label.
Import JsString Json Identity IdentityScenarios.


(** A draw selects the word of index [i] exactly when it falls in the
    [i]-th of the equal parts of the unit interval. *)
Lemma floorMul_part (r : Q) (n i : Z) :
  floorMul r n = i ↔ (inject_Z i <= r * inject_Z n)%Q ∧ (r * inject_Z n < inject_Z (i + 1))%Q.
Proof.
  unfold floorMul. split.
  - intros <-. split; [apply Qfloor_le | apply Qlt_floor].
  - intros [Hlo Hhi].
    pose proof (Qfloor_le (r * inject_Z n)) as Hfl.
    pose proof (Qlt_floor (r * inject_Z n)) as Hfu.
    assert (inject_Z i < inject_Z (Qfloor (r * inject_Z n) + 1))%Q as H1
      by (eapply Qle_lt_trans; done).
    assert (inject_Z (Qfloor (r * inject_Z n)) < inject_Z (i + 1))%Q as H2
      by (eapply Qle_lt_trans; done).
    rewrite <- Zlt_Qlt in H1, H2. lia.
Qed.




Lemma generateLabel_spec c random : ∀ fuel a label n,
  generateLabel fuel c random a = Some (label, n) →
  (a < n)%nat ∧ (n ≤ Nat.max 10 (S a))%nat
  ∧ label = attempt random (n - 1)
  ∧ (∀ i, (a ≤ i < n - 1)%nat → isLabelInUse c (attempt random i) = true)
  ∧ (isLabelInUse c label = false ∨ (10 ≤ n)%nat).
Proof.
  induction fuel as [|fuel IH]; intros a label n; [done|].
  cbn [generateLabel]. fold (attempt random a).
  destruct (isLabelInUse c (attempt random a)) eqn:Huse; cbn [andb].
  - destruct (Nat.ltb_spec (S a) 10) as [Hlt|Hge].
    + intros (Han & Hmax & Hlab & Hprev & Hlast)%IH.
      split; [lia|]. split; [lia|]. split; [done|]. split; [|done].
      intros i Hi. destruct (decide (i = a)) as [->|]; [done|]. apply Hprev. lia.
    + intros [= <- <-]. replace (S a - 1)%nat with a by lia.
      split; [lia|]. split; [lia|]. split; [done|]. split; [intros; lia|]. right; lia.
  - intros [= <- <-]. replace (S a - 1)%nat with a by lia.
    split; [lia|]. split; [lia|]. split; [done|]. split; [intros; lia|]. by left.
Qed.



Example getFingerprintLabel_first_draws :
  fst <$> getFingerprintLabel 10 freshClient (fun _ => 0%Q) "abc" = Some "SuperLion1000"%string.
Proof. vm_compute. reflexivity. Qed.

(** All ten candidates in use: the tenth is returned. *)
Example getFingerprintLabel_exhausted :
  let taken :=
    {| config := config freshClient; fingerprint := None; fingerprintLabel := None;
       storage :=
         {| localStorage :=
              Some {| da_fp := None; da_labels := {[ "other"%string := "CalmRhino9999"%string ]} |};
            sessionStorage := Some None; indexedDB := Some ∅; cookie := Some None |};
       errors := [] |} in
  isLabelInUse taken "CalmRhino9999" = true
  ∧ fst <$> getFingerprintLabel 10 taken (fun _ => (9999 # 10000)%Q) "abc"
    = Some "CalmRhino9999"%string.
Proof. vm_compute. split; reflexivity. Qed.

End Label.

(** ** Persistence of the label *)

Section Persistence.
Import JsString Json Identity IdentityScenarios.

Lemma getStoredFingerprintLabel_localStorage (c1 c2 : Client) (fp : string) :
  localStorage (storage c1) = localStorage (storage c2) →
  getStoredFingerprintLabel c1 fp = getStoredFingerprintLabel c2 fp.
Proof. unfold getStoredFingerprintLabel. by intros ->. Qed.

(** C7, at its failing inputs: with [localStorage] unavailable and the other
    backends working, the label persisted is not read back (the first write of
    [storeFingerprintPersistently] throws and the other backends are not
    written either); and a record that only [sessionStorage], IndexedDB and
    the cookie hold is not found, because the read looks at [localStorage]
    alone. *)
Lemma stored_label_lost_without_localStorage :
  getStoredFingerprintLabel (storeFingerprintPersistently 1000 noLocalStorage) "f00d" = None
  ∧ sessionStorage (storage (storeFingerprintPersistently 1000 noLocalStorage)) = Some None
  ∧ cookie (storage (storeFingerprintPersistently 1000 noLocalStorage)) = Some None
  ∧ getStoredFingerprintLabel clearedLocalStorage "f00d" = None.
Proof. repeat split; reflexivity. Qed.

(** What holds of the read: it consults [localStorage] only. When
    [localStorage] is available, the label read right after
    [storeFingerprintPersistently] is the label persisted, whatever the state
    of [sessionStorage], IndexedDB and the cookie, then and later. *)
Lemma stored_label_read_back
    (now : Z) (c : Client) (fp label : string) (ls : LocalStore) :
  fingerprint c = Some fp →
  fingerprintLabel c = Some label →
  localStorage (storage c) = Some ls →
  getStoredFingerprintLabel (storeFingerprintPersistently now c) fp = Some label
  ∧ ∀ c' : Client,
      localStorage (storage c') = localStorage (storage (storeFingerprintPersistently now c)) →
      getStoredFingerprintLabel c' fp = Some label.
Proof.
  intros Hfp Hlabel Hls.
  assert (getStoredFingerprintLabel (storeFingerprintPersistently now c) fp = Some label) as Hread.
  { unfold storeFingerprintPersistently, getStoredFingerprintLabel. rewrite Hls.
    destruct (sessionStorage (storage c)); cbn; rewrite Hfp, Hlabel;
      by rewrite bool_decide_eq_true_2. }
  split; [done|]. intros c' Hsame.
  by rewrite (getStoredFingerprintLabel_localStorage c' _ fp Hsame).
Qed.

Example stored_label_read_back_onlyLocalStorage :
  getStoredFingerprintLabel (storeFingerprintPersistently 1000 onlyLocalStorage) "f00d"
    = Some "SuperLion1000"%string
  ∧ ∀ c' : Client,
      localStorage (storage c')
        = localStorage (storage (storeFingerprintPersistently 1000 onlyLocalStorage)) →
      getStoredFingerprintLabel c' "f00d" = Some "SuperLion1000"%string.
Proof.
  apply (stored_label_read_back 1000 onlyLocalStorage "f00d" "SuperLion1000"
           {| da_fp := None; da_labels := ∅ |}); reflexivity.
Qed.

End Persistence.

(** ** A/B tests *)

Section ABTests.
Import JsString Json Bucketing.

Lemma userKey_inj (c : Client) (t1 t2 : string) : userKey c t1 = userKey c t2 → t1 = t2.
Proof.
  unfold userKey. intros H.
  apply (String.app_inj (fingerprintLabel c)) in H.
  by apply (String.app_inj "_") in H.
Qed.

Lemma getABTestVariant_label (t : string) (c : Client) :
  fingerprintLabel (snd (getABTestVariant t c)) = fingerprintLabel c.
Proof.
  unfold getABTestVariant.
  destruct (da_ab_assignments c !! userKey c t) as [v|]; [destruct (truthy v); [done|]|];
    by destruct (da_ab_tests c !! t).
Qed.

Lemma trackFunnelStep_label now f s props (c : Client) :
  fingerprintLabel (trackFunnelStep now f s props c) = fingerprintLabel c.
Proof.
  unfold trackFunnelStep. destruct (da_funnels c !! f) as [funnel|]; [|done].
  by destruct (indexOf s (steps funnel) =? -1).
Qed.

Lemma call_label (c : Client) (k : Call) : fingerprintLabel (call c k) = fingerprintLabel c.
Proof.
  destruct k; cbn; [done | apply getABTestVariant_label | done | apply trackFunnelStep_label].
Qed.

Lemma calls_label (ks : list Call) : ∀ c : Client,
  fingerprintLabel (calls c ks) = fingerprintLabel c.
Proof.
  induction ks as [|k ks IH]; intros c; [done|].
  cbn. unfold calls in IH. by rewrite IH, call_label.
Qed.

Lemma userKey_label (c c' : Client) (t : string) :
  fingerprintLabel c' = fingerprintLabel c → userKey c' t = userKey c t.
Proof. unfold userKey. by intros ->. Qed.

Lemma trackFunnelStep_assignments now f s props (c : Client) :
  da_ab_assignments (trackFunnelStep now f s props c) = da_ab_assignments c.
Proof.
  unfold trackFunnelStep. destruct (da_funnels c !! f) as [funnel|]; [|done].
  by destruct (indexOf s (steps funnel) =? -1).
Qed.

(** A stored, non-empty assignment survives any call of the API. *)
Lemma call_keeps_assignment (c : Client) (k : Call) (t v : string) :
  da_ab_assignments c !! userKey c t = Some v → truthy v = true →
  da_ab_assignments (call c k) !! userKey c t = Some v.
Proof.
  intros Hv Htruthy. destruct k as [now t' vs split|t'|now f ss|now f s props]; cbn.
  - done.
  - unfold getABTestVariant.
    destruct (decide (t' = t)) as [->|Hne].
    + by rewrite Hv, Htruthy.
    + assert (userKey c t' ≠ userKey c t) as Hkey by (intros ?%userKey_inj; done).
      assert (∀ x, da_ab_assignments
                     (snd (match da_ab_tests c !! t' with
                           | None => (Null, c)
                           | Some test =>
                               (x test, setAssignments c
                                  (assign (userKey c t') (x test) (da_ab_assignments c)))
                           end)) !! userKey c t = Some v) as Hcompute.
      { intros x. destruct (da_ab_tests c !! t') as [test|]; [|done]. cbn.
        unfold assign. destruct (x test); by rewrite ?lookup_delete_ne, ?lookup_insert_ne. }
      destruct (da_ab_assignments c !! userKey c t') as [v'|];
        [destruct (truthy v'); [done|]|]; apply Hcompute.
  - done.
  - by rewrite trackFunnelStep_assignments.
Qed.

Lemma calls_keep_assignment (ks : list Call) : ∀ (c : Client) (t v : string),
  da_ab_assignments c !! userKey c t = Some v → truthy v = true →
  da_ab_assignments (calls c ks) !! userKey c t = Some v.
Proof.
  induction ks as [|k ks IH]; intros c t v Hv Htruthy; [done|].
  cbn. fold (calls (call c k) ks).
  rewrite <- (userKey_label c (call c k) t (call_label c k)).
  apply IH; [|done].
  rewrite (userKey_label c (call c k) t (call_label c k)).
  by apply call_keeps_assignment.
Qed.



End ABTests.

(** ** The variant computed on the first lookup *)

Section FirstAssignment.
Import JsString Json Bucketing Spec BucketingScenarios.











(** C10, at its failing input: [getABTestVariant] should return a member of
    the declared variants. For a test declared with a single variant, looked
    up by a client whose hash is not below the split, the result is
    [undefined], nothing is stored, and a second lookup gives [undefined]
    again. *)
Lemma getABTestVariant_single_variant_undefined :
  let c := createABTest 1000 "banner" ["only"%string] 0.5 (init "QuickEagle7291") in
  let r1 := getABTestVariant "banner" c in
  let r2 := getABTestVariant "banner" (snd r1) in
  hashLoop "QuickEagle7291banner" = -2101241962
  ∧ PrimFloat.ltb (hashCode "QuickEagle7291banner") 0.5 = false
  ∧ fst r1 = Undefined
  ∧ da_ab_assignments (snd r1) !! userKey c "banner" = None
  ∧ fst r2 = Undefined.
Proof. vm_compute. repeat split; reflexivity. Qed.

(** With two variants or more the value computed is the first or the second
    variant declared. *)
Lemma chooseVariant_member (c : Client) (testName : string) (test : ABTest) :
  (2 ≤ length (variants test))%nat →
  ∃ v, chooseVariant c testName test = Str v ∧ v ∈ variants test.
Proof.
  intros Hlen. unfold chooseVariant, at_index.
  destruct (variants test) as [|v0 [|v1 rest]]; cbn in Hlen; [lia..|].
  destruct (PrimFloat.ltb _ _); cbn; eexists; split; try done.
  - apply elem_of_cons; by left.
  - apply elem_of_cons; right. apply elem_of_cons; by left.
Qed.

End FirstAssignment.

(** ** Funnels and unknown references *)

Section Funnels.
Import JsString Json Bucketing BucketingScenarios.

Lemma indexOf_missing (x : string) (l : list string) : indexOf x l = -1 ↔ x ∉ l.
Proof.
  induction l as [|y l IH]; cbn.
  - split; [intros _ ?%elem_of_nil; done | done].
  - destruct (String.eqb_spec x y) as [->|Hne].
    + split; [done|]. intros Hnotin. exfalso. apply Hnotin, elem_of_cons; by left.
    + assert (-1 ≤ indexOf x l) as Hlow.
      { clear. induction l as [|z l IHl]; cbn; [lia|].
        destruct (String.eqb x z); [lia|].
        destruct (Z.eqb_spec (indexOf x l) (-1)); lia. }
      destruct (Z.eqb_spec (indexOf x l) (-1)) as [Heq|Hneq].
      * split; [|done]. intros _ [?|Hin]%elem_of_cons; [done|]. by apply IH in Hin.
      * split; [lia|]. intros Hnotin. exfalso. apply Hneq, IH.
        intros Hin. apply Hnotin, elem_of_cons; by right.
Qed.

Lemma includes_elem (x : string) (l : list string) : includes x l = true ↔ x ∈ l.
Proof.
  unfold includes. rewrite existsb_exists. split.
  - intros (y & Hin & ->%String.eqb_eq). by apply list_elem_of_In.
  - intros Hin. exists x. split; [by apply list_elem_of_In | apply String.eqb_refl].
Qed.

Lemma includes_again (s x : string) (l : list string) :
  x ∈ l → includes s (l ++ [x]) = includes s l.
Proof.
  intros Hx. unfold includes. rewrite existsb_app. cbn. rewrite orb_false_r.
  destruct (String.eqb_spec s x) as [->|_]; [|by rewrite orb_false_r].
  rewrite orb_true_r. symmetry. by apply includes_elem.
Qed.

Lemma isComplete_again (funnel : Funnel) (entries : list StepEntry) (e : StepEntry) :
  step e ∈ map step entries →
  isComplete funnel (entries ++ [e]) = isComplete funnel entries.
Proof.
  intros He. unfold isComplete. rewrite map_app. cbn [map].
  induction (steps funnel) as [|s l IH]; cbn [forallb]; [done|].
  by rewrite includes_again, IH.
Qed.






(** C6, as stated, fails: in a funnel of one step, recording the step a
    second time changes the stored progress (a second entry, with the time of
    the second call, is appended) and sends a second [funnel_completed]
    event. *)
Lemma trackFunnelStep_twice_counterexample :
  let c0 := createFunnel 1000 "signup_flow" ["signup_form"%string] (init "QuickEagle7291") in
  let c1 := trackFunnelStep 2000 "signup_flow" "signup_form" JNull c0 in
  let c2 := trackFunnelStep 3000 "signup_flow" "signup_form" JNull c1 in
  let entry t := {| step := "signup_form"; timestamp := t; properties := JNull |} in
  getFunnelData "signup_flow" c1 = Some {| startedAt := 2000; progress_steps := [entry 2000] |}
  ∧ getFunnelData "signup_flow" c2
    = Some {| startedAt := 2000; progress_steps := [entry 2000; entry 3000] |}
  ∧ getFunnelData "signup_flow" c2 ≠ getFunnelData "signup_flow" c1
  ∧ length (completedEvents c1) = 1%nat
  ∧ length (completedEvents c2) = 2%nat.
Proof.
  cbv zeta.
  assert (getFunnelData "signup_flow"
            (trackFunnelStep 2000 "signup_flow" "signup_form" JNull
               (createFunnel 1000 "signup_flow" ["signup_form"%string] (init "QuickEagle7291")))
          = Some {| startedAt := 2000;
                    progress_steps := [{| step := "signup_form"; timestamp := 2000;
                                          properties := JNull |}] |}) as H1
    by (vm_compute; reflexivity).
  assert (getFunnelData "signup_flow"
            (trackFunnelStep 3000 "signup_flow" "signup_form" JNull
               (trackFunnelStep 2000 "signup_flow" "signup_form" JNull
                  (createFunnel 1000 "signup_flow" ["signup_form"%string]
                     (init "QuickEagle7291"))))
          = Some {| startedAt := 2000;
                    progress_steps := [{| step := "signup_form"; timestamp := 2000;
                                          properties := JNull |};
                                       {| step := "signup_form"; timestamp := 3000;
                                          properties := JNull |}] |}) as H2
    by (vm_compute; reflexivity).
  split; [exact H1|]. split; [exact H2|].
  split; [rewrite H1, H2; discriminate|].
  split; vm_compute; reflexivity.
Qed.

(** C6, amended: recording again a step that is already recorded for the
    client keeps the start time and the recorded entries (so the time of the
    first completion stays in the progress) and appends a new entry with the
    time of the call; an event is sent at every call, and it is a
    [funnel_completed] event whenever the funnel was already complete. *)
Theorem trackFunnelStep_repeated
    (now : Z) (c : Client) (funnelName stepName : string) (props : json)
    (funnel : Funnel) (p : FunnelProgress) :
  da_funnels c !! funnelName = Some funnel →
  stepName ∈ steps funnel →
  da_user_funnels c !! userKey c funnelName = Some p →
  stepName ∈ map step (progress_steps p) →
  let c' := trackFunnelStep now funnelName stepName props c in
  let complete := isComplete funnel (progress_steps p) in
  da_user_funnels c'
    = <[userKey c funnelName :=
          {| startedAt := startedAt p;
             progress_steps := progress_steps p
               ++ [{| step := stepName; timestamp := now; properties := props |}] |}]>
        (da_user_funnels c)
  ∧ events c'
    = events c
      ++ [funnel_progress (if complete then "funnel_completed" else "funnel_step")
            funnelName stepName (indexOf stepName (steps funnel)) (length (steps funnel))
            complete props (fingerprintLabel c) now].
Proof.
  intros Hfunnel Hstep Hp Hdone c' complete. subst c' complete.
  unfold trackFunnelStep. rewrite Hfunnel, Hp.
  destruct (Z.eqb_spec (indexOf stepName (steps funnel)) (-1)) as [Hmiss|_].
  { by apply indexOf_missing in Hmiss. }
  cbn [da_user_funnels events startedAt progress_steps].
  split; [done|].
  by rewrite (isComplete_again funnel (progress_steps p)
                {| step := stepName; timestamp := now; properties := props |} Hdone).
Qed.

Lemma trackFunnelStep_repeated_witness :
  let c' := trackFunnelStep 3000 "signup_flow" "signup_form" JNull signedUp in
  let complete := isComplete signupFunnel (progress_steps signupProgress) in
  da_user_funnels c'
    = <[userKey signedUp "signup_flow" :=
          {| startedAt := startedAt signupProgress;
             progress_steps := progress_steps signupProgress
               ++ [{| step := "signup_form"; timestamp := 3000; properties := JNull |}] |}]>
        (da_user_funnels signedUp)
  ∧ events c'
    = events signedUp
      ++ [funnel_progress (if complete then "funnel_completed" else "funnel_step")
            "signup_flow" "signup_form" (indexOf "signup_form" (steps signupFunnel))
            (length (steps signupFunnel)) complete JNull (fingerprintLabel signedUp) 3000].
Proof.
  apply (trackFunnelStep_repeated 3000 signedUp "signup_flow" "signup_form" JNull
           signupFunnel signupProgress).
  - vm_compute. reflexivity.
  - apply elem_of_cons. left. reflexivity.
  - vm_compute. reflexivity.
  - apply elem_of_cons. left. reflexivity.
Defined.

End Funnels.

Section Sticky.
Import JsString Json Bucketing BucketingScenarios.


End Sticky.

(** ** Delivery *)

Section DeliveryFacts.
Import Delivery.
Context {Embed : Type}.
Variable fetch : nat → Embed → Response.

Local Abbreviation State := (Pipeline Embed).

Lemma request_fields (st : State) (e : Embed) :
  eventQueue (snd (request fetch st e)) = eventQueue st
  ∧ isOnline (snd (request fetch st e)) = isOnline st
  ∧ batchSize (snd (request fetch st e)) = batchSize st
  ∧ transmitted (snd (request fetch st e)) = transmitted st ++ [e].
Proof. unfold transmitted. cbn. by rewrite map_app. Qed.

Lemma sendToDiscord_eq (fuel : nat) (e : Embed) (st : State) :
  sendToDiscord fetch (S fuel) e st
  = if ok (fetch (length (requests st)) e) then Some (snd (request fetch st e))
    else if isOnline st then queueEvent fetch fuel e (snd (request fetch st e))
    else Some (snd (request fetch st e)).
Proof. reflexivity. Qed.

Lemma queueEvent_eq (fuel : nat) (e : Embed) (st : State) :
  queueEvent fetch (S fuel) e st
  = if (batchSize st <=? length (eventQueue st ++ [e]))%nat
    then flushEventQueue fetch fuel (setQueue st (eventQueue st ++ [e]))
    else Some (setQueue st (eventQueue st ++ [e])).
Proof. reflexivity. Qed.

Lemma flushEventQueue_eq (fuel : nat) (st : State) :
  flushEventQueue fetch (S fuel) st
  = match eventQueue st with
    | [] => Some st
    | _ => forEach (sendToDiscord fetch fuel) (take (batchSize st) (eventQueue st))
             (setQueue st (drop (batchSize st) (eventQueue st)))
    end.
Proof. reflexivity. Qed.

Lemma sendToDiscord_offline (fuel : nat) (e : Embed) (st : State) :
  isOnline st = false →
  sendToDiscord fetch (S fuel) e st = Some (snd (request fetch st e)).
Proof. intros Hoff. rewrite sendToDiscord_eq, Hoff. by destruct (ok _). Qed.

Lemma sendToDiscord_ok (fuel : nat) (e : Embed) (st : State) :
  ok (fetch (length (requests st)) e) = true →
  sendToDiscord fetch (S fuel) e st = Some (snd (request fetch st e)).
Proof. intros Hok. by rewrite sendToDiscord_eq, Hok. Qed.

Lemma requestAll_fields (es : list Embed) : ∀ st : State,
  eventQueue (requestAll fetch es st) = eventQueue st
  ∧ isOnline (requestAll fetch es st) = isOnline st
  ∧ batchSize (requestAll fetch es st) = batchSize st
  ∧ transmitted (requestAll fetch es st) = transmitted st ++ es.
Proof.
  induction es as [|e es IH]; intros st; cbn [requestAll fold_left].
  - by rewrite app_nil_r.
  - destruct (IH (snd (request fetch st e))) as (Hq & Ho & Hb & Ht).
    destruct (request_fields st e) as (Hq' & Ho' & Hb' & Ht').
    unfold requestAll in *. rewrite Hq, Ho, Hb, Ht, Hq', Ho', Hb', Ht'.
    by rewrite <- app_assoc.
Qed.




Lemma forEach_acknowledged (fuel from : nat) (es : list Embed) : ∀ st : State,
  (∀ n e, (from ≤ n)%nat → ok (fetch n e) = true) →
  (from ≤ length (requests st))%nat →
  forEach (sendToDiscord fetch (S fuel)) es st = Some (requestAll fetch es st).
Proof.
  induction es as [|e es IH]; intros st Hok Hfrom; [done|].
  cbn [forEach]. rewrite sendToDiscord_ok by (by apply Hok).
  apply IH; [done|]. cbn. rewrite length_app. lia.
Qed.


(** C5, amended: when a transmission fails (a response that is not 2xx, or a
    network error) while the client is online, the embed goes back through
    [queueEvent], which appends it at the tail of the queue (and flushes when
    the batch size is reached); when the failure happens while the client is
    offline, the embed is not put back in the queue. *)
Theorem failed_send_requeued_when_online (fuel : nat) (e : Embed) (st : State) :
  ok (fetch (length (requests st)) e) = false →
  (isOnline st = true →
     sendToDiscord fetch (S (S fuel)) e st
       = queueEvent fetch (S fuel) e (snd (request fetch st e))
     ∧ ((length (eventQueue st) + 1 < batchSize st)%nat →
        ∃ st', sendToDiscord fetch (S (S fuel)) e st = Some st'
               ∧ eventQueue st' = eventQueue st ++ [e]
               ∧ transmitted st' = transmitted st ++ [e]))
  ∧ (isOnline st = false →
     ∃ st', sendToDiscord fetch (S (S fuel)) e st = Some st'
            ∧ eventQueue st' = eventQueue st
            ∧ transmitted st' = transmitted st ++ [e]).
Proof.
  intros Hfail. destruct (request_fields st e) as (Hq & Ho & Hb & Ht). split.
  - intros Hon. rewrite sendToDiscord_eq, Hfail, Hon. split; [done|].
    intros Hroom. rewrite queueEvent_eq, Hq, Hb, length_app. cbn [length].
    destruct (Nat.leb_spec (batchSize st) (length (eventQueue st) + 1)); [lia|].
    eexists. split; [done|]. split; [done|].
    unfold transmitted in *. cbn [setQueue requests]. done.
  - intros Hoff. rewrite sendToDiscord_offline by done.
    eexists. split; [done|]. by split.
Qed.

End DeliveryFacts.

Section DeliveryExamples.
Import Delivery DeliveryScenarios.

(** C5, as stated, fails: a high-priority observation sent while the client
    is offline, whose transmission fails, is neither delivered nor queued. *)
Lemma failed_send_dropped_counterexample :
  ∃ st, sendEvent down 5 true true 7%nat offlineClient = Some st
        ∧ transmitted st = [7%nat]
        ∧ delivered st = []
        ∧ eventQueue st = [].
Proof. eexists. vm_compute. repeat split; reflexivity. Qed.

Lemma failed_send_requeued_when_online_witness :
  (isOnline onlineClient = true →
     sendToDiscord down 2 7%nat onlineClient
       = queueEvent down 1 7%nat (snd (request down onlineClient 7%nat))
     ∧ ((length (eventQueue onlineClient) + 1 < batchSize onlineClient)%nat →
        ∃ st', sendToDiscord down 2 7%nat onlineClient = Some st'
               ∧ eventQueue st' = eventQueue onlineClient ++ [7%nat]
               ∧ transmitted st' = transmitted onlineClient ++ [7%nat]))
  ∧ (isOnline onlineClient = false →
     ∃ st', sendToDiscord down 2 7%nat onlineClient = Some st'
            ∧ eventQueue st' = eventQueue onlineClient
            ∧ transmitted st' = transmitted onlineClient ++ [7%nat]).
Proof. apply (failed_send_requeued_when_online down 0 7%nat onlineClient). reflexivity. Defined.

Example failed_send_requeued_online :
  eventQueue <$> sendToDiscord down 2 7%nat onlineClient = Some [1; 2; 3; 7]%nat.
Proof. vm_compute. reflexivity. Qed.



End DeliveryExamples.

(** * Further properties of the code *)

(** ** Delivery: queue size, batches and retries *)

Section DeliveryMore.
Import Delivery Health.
Context {Embed : Type}.
Variable fetch : nat → Embed → Response.

Local Abbreviation State := (Pipeline Embed).


Lemma requestAll_delivered (es : list Embed) : ∀ (from : nat) (st : State),
  (∀ n e, (from ≤ n)%nat → ok (fetch n e) = true) →
  (from ≤ length (requests st))%nat →
  delivered (requestAll fetch es st) = delivered st ++ es.
Proof.
  induction es as [|e es IH]; intros from st Hok Hfrom; cbn [requestAll fold_left].
  - by rewrite app_nil_r.
  - fold (requestAll fetch es (snd (request fetch st e))).
    rewrite (IH from); [|done|cbn; rewrite length_app; lia].
    unfold delivered. cbn [request snd requests].
    rewrite filter_app, map_app, <- app_assoc. f_equal.
    rewrite filter_cons_True by (cbn; by apply Hok). done.
Qed.

(** X2: A flush sends one batch: with an endpoint that acknowledges,
    [flushEventQueue] hands to [fetch] the first [batchSize] embeds of the
    queue, in queue order, all are delivered, and the rest of the queue stays.
    With a batch size of 0 nothing is ever sent. *)
Theorem flush_sends_one_batch (fuel : nat) (st : State) :
  (2 ≤ fuel)%nat →
  (∀ n e, (length (requests st) ≤ n)%nat → ok (fetch n e) = true) →
  ∃ st',
    flushEventQueue fetch fuel st = Some st'
    ∧ transmitted st' = transmitted st ++ take (batchSize st) (eventQueue st)
    ∧ delivered st' = delivered st ++ take (batchSize st) (eventQueue st)
    ∧ eventQueue st' = drop (batchSize st) (eventQueue st)
    ∧ (batchSize st = 0%nat → st' = st).
Proof.
  intros Hfuel Hok. destruct fuel as [|[|fuel]]; [lia..|].
  rewrite flushEventQueue_eq.
  destruct (eventQueue st) as [|x q] eqn:Hq.
  { exists st. rewrite take_nil, drop_nil, !app_nil_r. by rewrite Hq. }
  rewrite (forEach_acknowledged fetch fuel (length (requests st))); [|done|done].
  eexists. split; [done|].
  destruct (requestAll_fields fetch (take (batchSize st) (x :: q))
              (setQueue st (drop (batchSize st) (x :: q)))) as (Hq' & _ & _ & Ht').
  split; [by rewrite Ht'|].
  split; [by rewrite (requestAll_delivered _ (length (requests st)))|].
  split; [by rewrite Hq'|].
  intros Hzero. rewrite Hzero. cbn [take drop requestAll fold_left].
  destruct st; cbn in *. by rewrite Hq.
Qed.

Section Failing.
Hypothesis Hfail : ∀ n e, ok (fetch n e) = false.

Lemma forEach_failing (fuel : nat) :
  (∀ (fuel' : nat) (st : State),
     (fuel' < fuel)%nat →
     isOnline st = true → (1 ≤ batchSize st)%nat →
     (batchSize st ≤ length (eventQueue st))%nat →
     flushEventQueue fetch fuel' st = None) →
  ∀ (xs : list Embed) (st : State),
    isOnline st = true → (1 ≤ batchSize st)%nat → xs ≠ [] →
    (batchSize st ≤ length (eventQueue st) + length xs)%nat →
    forEach (sendToDiscord fetch fuel) xs st = None.
Proof.
  intros IHflush. induction xs as [|x rest IH]; intros st Hon Hbatch Hne Hlen; [done|].
  cbn [forEach]. destruct fuel as [|[|fuel]]; [done| |].
  { by rewrite sendToDiscord_eq, Hfail, Hon. }
  rewrite sendToDiscord_eq, Hfail, Hon, queueEvent_eq.
  destruct (request_fields fetch st x) as (Hq & Ho & Hb & _).
  rewrite Hq, Hb.
  destruct (Nat.leb_spec (batchSize st) (length (eventQueue st ++ [x]))) as [Hfull|Hroom].
  - rewrite (IHflush fuel); [done|lia| | |]; cbn [setQueue isOnline batchSize eventQueue].
    + by rewrite Ho.
    + by rewrite Hb.
    + by rewrite Hb.
  - rewrite length_app in Hroom. cbn [length] in *.
    apply IH; cbn [setQueue isOnline batchSize eventQueue].
    + by rewrite Ho.
    + by rewrite Hb.
    + intros ->. cbn in Hlen. lia.
    + rewrite Hb, length_app. cbn [length]. lia.
Qed.

(** A flush that finds a full batch in the queue, online and with every
    transmission failing, does not come to an end. *)
Lemma flush_failing : ∀ (fuel : nat) (st : State),
  isOnline st = true → (1 ≤ batchSize st)%nat →
  (batchSize st ≤ length (eventQueue st))%nat →
  flushEventQueue fetch fuel st = None.
Proof.
  intros fuel. induction (lt_wf fuel) as [fuel _ IH].
  intros st Hon Hbatch Hlen. destruct fuel as [|fuel]; [done|].
  rewrite flushEventQueue_eq.
  destruct (eventQueue st) as [|x q] eqn:Hq; [cbn in Hlen; lia|].
  apply forEach_failing; cbn [setQueue isOnline batchSize eventQueue].
  - intros fuel' st' Hlt. apply IH. lia.
  - done.
  - done.
  - destruct (batchSize st); [lia|]. done.
  - rewrite length_take, length_drop. lia.
Qed.

(** X3: There is no bound on the retries: when the client is online, every
    transmission fails and the embed fills a batch (batch size 1, or a queue
    one short of the batch size), [sendToDiscord] starts a chain of flushes
    and transmissions that never ends: no amount of fuel completes the run. *)
Theorem failing_send_retries_forever (e : Embed) (st : State) (fuel : nat) :
  isOnline st = true →
  (1 ≤ batchSize st)%nat →
  (batchSize st ≤ length (eventQueue st) + 1)%nat →
  sendToDiscord fetch fuel e st = None
  ∧ sendEvent fetch fuel true false e st = None.
Proof.
  intros Hon Hbatch Hlen.
  assert (sendToDiscord fetch fuel e st = None) as Hsend.
  { destruct fuel as [|[|fuel]]; [done| |].
    { by rewrite sendToDiscord_eq, Hfail, Hon. }
    rewrite sendToDiscord_eq, Hfail, Hon, queueEvent_eq.
    destruct (request_fields fetch st e) as (Hq & Ho & Hb & _).
    rewrite Hq, Hb, length_app. cbn [length].
    destruct (Nat.leb_spec (batchSize st) (length (eventQueue st) + 1)); [|lia].
    apply flush_failing; cbn [setQueue isOnline batchSize eventQueue].
    - by rewrite Ho.
    - by rewrite Hb.
    - rewrite Hb, length_app. cbn [length]. lia. }
  split; [done|]. unfold sendEvent. cbn [negb orb]. by rewrite Hon.
Qed.

End Failing.

End DeliveryMore.

(** ** Identity: the digest and the stability of the label *)

Section IdentityMore.
Import JsString Json Identity IdentityScenarios Notions.

Lemma round_length (s : list Z) (kw : Z * Z) :
  length s = 8%nat → length (Sha256.round s kw) = 8%nat.
Proof. do 9 (destruct s as [|? s]; try discriminate). done. Qed.

Lemma rounds_length (l : list (Z * Z)) : ∀ s : list Z,
  length s = 8%nat → length (fold_left Sha256.round l s) = 8%nat.
Proof.
  induction l as [|kw l IH]; intros s Hs; [done|].
  cbn [fold_left]. by apply IH, round_length.
Qed.

Lemma compress_length (h block : list Z) :
  length h = 8%nat → length (Sha256.compress h block) = 8%nat.
Proof.
  intros Hh. unfold Sha256.compress. cbv zeta.
  rewrite length_map, length_combine, rounds_length by done. lia.
Qed.

Lemma compress_all_length (bs : list (list Z)) : ∀ h : list Z,
  length h = 8%nat → length (fold_left Sha256.compress bs h) = 8%nat.
Proof.
  induction bs as [|b bs IH]; intros h Hh; [done|].
  cbn [fold_left]. by apply IH, compress_length.
Qed.

Lemma be_bytes_range (n : nat) (x : Z) :
  Forall (fun b => 0 ≤ b < 256) (Sha256.be_bytes n x).
Proof.
  induction n as [|n IH]; cbn [Sha256.be_bytes]; constructor; [|done].
  apply Z.mod_pos_bound. lia.
Qed.

Lemma digest_length (msg : list Z) : length (Sha256.digest msg) = 32%nat.
Proof.
  unfold Sha256.digest. cbv zeta.
  pose proof (compress_all_length
                (Sha256.blocks (length (Sha256.pad msg)) (Sha256.pad msg)) Sha256.H0
                ltac:(by vm_compute)) as Hlen.
  destruct (fold_left _ _ _) as [|? l]; [discriminate|].
  do 8 (destruct l as [|? l]; try discriminate). done.
Qed.

Lemma digest_range (msg : list Z) : Forall (fun b => 0 ≤ b < 256) (Sha256.digest msg).
Proof.
  unfold Sha256.digest. cbv zeta. apply Forall_flat_map, Forall_forall.
  intros x _. apply be_bytes_range.
Qed.

Lemma hexDigit_lowerHex (d : Z) : 0 ≤ d < 16 → isLowerHex (hexDigit d) = true.
Proof.
  intros Hd.
  assert (forallb (fun k => isLowerHex (hexDigit (Z.of_nat k))) (seq 0 16) = true) as Hall
    by (vm_compute; reflexivity).
  rewrite forallb_forall in Hall.
  specialize (Hall (Z.to_nat d)). rewrite Z2Nat.id in Hall by lia.
  apply Hall, in_seq. lia.
Qed.

Lemma join_hex2 (bytes : list Z) :
  Forall (fun b => 0 ≤ b < 256) bytes →
  String.length (join EmptyString (map hex2 bytes)) = (2 * length bytes)%nat
  ∧ forallb isLowerHex (list_ascii_of_string (join EmptyString (map hex2 bytes))) = true.
Proof.
  induction 1 as [|b bytes Hb _ [IHlen IHhex]]; [done|].
  assert (isLowerHex (hexDigit (b / 16)) = true) as H1
    by (apply hexDigit_lowerHex; split; [apply Z.div_pos | apply Z.div_lt_upper_bound]; lia).
  assert (isLowerHex (hexDigit (b mod 16)) = true) as H2
    by (apply hexDigit_lowerHex, Z.mod_pos_bound; lia).
  destruct bytes as [|b' bytes].
  - cbn [map join hex2 String.length list_ascii_of_string forallb length].
    by rewrite H1, H2.
  - change (join EmptyString (map hex2 (b :: b' :: bytes)))
      with (hex2 b +:+ EmptyString +:+ join EmptyString (map hex2 (b' :: bytes))).
    unfold hex2 at 1 3. cbv beta iota delta [String.append].
    cbn [String.length list_ascii_of_string forallb].
    rewrite IHlen, IHhex, H1, H2. cbn [length]. split; [lia|done].
Qed.

(** X4: The fingerprint is a fixed-length hexadecimal digest: for every
    string, [hashString] returns 64 characters, each a digit or a letter from
    a to f. *)
Theorem hashString_hex64 (str : string) :
  String.length (hashString str) = 64%nat
  ∧ forallb isLowerHex (list_ascii_of_string (hashString str)) = true.
Proof.
  unfold hashString.
  destruct (join_hex2 (Sha256.digest (utf8_encode str)) (digest_range _)) as [Hlen Hhex].
  by rewrite Hlen, digest_length.
Qed.

Lemma pick_truthy (words : list string) (i : Z) :
  Forall (fun w => truthy w = true) words → truthy (pick words i) = true.
Proof.
  intros Hwords. unfold pick. destruct (i <? 0); [done|].
  destruct (words !! Z.to_nat i) as [w|] eqn:Hw; [|done].
  rewrite Forall_forall in Hwords. by apply Hwords, list_elem_of_lookup_2 with (Z.to_nat i).
Qed.

Lemma candidate_truthy (r1 r2 r3 : Q) : truthy (candidate r1 r2 r3) = true.
Proof.
  unfold candidate. cbv zeta.
  pose proof (pick_truthy ADJECTIVES (floorMul r1 (Z.of_nat (length ADJECTIVES)))
                ltac:(repeat constructor)) as Hadj.
  destruct (pick ADJECTIVES _); [discriminate|reflexivity].
Qed.

(** The two ways [getFingerprintLabel] comes to its result. *)
Lemma getFingerprintLabel_cases fuel (c : Client) random fp label c1 :
  getFingerprintLabel fuel c random fp = Some (label, c1) →
  truthy label = true
  ∧ ((getStoredFingerprintLabel c fp = Some label ∧ c1 = c)
     ∨ (∃ n, generateLabel fuel c random 0 = Some (label, n)
             ∧ c1 = storeFingerprintLabel c fp label
             ∧ ∀ s, getStoredFingerprintLabel c fp = Some s → truthy s = false)).
Proof.
  unfold getFingerprintLabel.
  assert (∀ n, generateLabel fuel c random 0 = Some (label, n) → truthy label = true) as Hgen.
  { intros n (_ & _ & -> & _)%generateLabel_spec. apply candidate_truthy. }
  destruct (getStoredFingerprintLabel c fp) as [stored|].
  - destruct (truthy stored) eqn:Hstored.
    + intros [= <- <-]. split; [done|]. by left.
    + destruct (generateLabel fuel c random 0) as [[l n]|] eqn:Hrun; [|done].
      intros [= <- <-]. split; [by eapply Hgen|]. right. exists n.
      split; [done|]. split; [done|]. by intros s [= <-].
  - destruct (generateLabel fuel c random 0) as [[l n]|] eqn:Hrun; [|done].
    intros [= <- <-]. split; [by eapply Hgen|]. right. exists n.
    split; [done|]. split; [done|]. by intros s [=].
Qed.

Lemma storeFingerprintLabel_fields (c : Client) (fp label : string) :
  config (storeFingerprintLabel c fp label) = config c
  ∧ (∀ fp', getStoredFingerprintLabel (storeFingerprintLabel c fp label) fp'
            = getStoredFingerprintLabel c fp')
  ∧ (is_Some (localStorage (storage c))
     → is_Some (localStorage (storage (storeFingerprintLabel c fp label)))
       ∧ isLabelInUse (storeFingerprintLabel c fp label) label = true).
Proof.
  unfold storeFingerprintLabel, getStoredFingerprintLabel, isLabelInUse.
  destruct (localStorage (storage c)) as [ls|] eqn:Hls; cbn; rewrite ?Hls.
  - split; [done|]. split; [done|]. intros _. split; [by eexists|].
    apply bool_decide_eq_true_2, list_elem_of_fmap. exists (fp, label).
    split; [done|]. apply elem_of_map_to_list, lookup_insert_eq.
  - split; [done|]. split; [done|]. by intros [? ?].
Qed.

Lemma storeFingerprintPersistently_fields (now : Z) (c : Client) :
  config (storeFingerprintPersistently now c) = config c
  ∧ fingerprintLabel (storeFingerprintPersistently now c) = fingerprintLabel c
  ∧ (is_Some (localStorage (storage c)) →
     ∀ fp, fingerprint c = Some fp →
           getStoredFingerprintLabel (storeFingerprintPersistently now c) fp
           = fingerprintLabel c).
Proof.
  unfold storeFingerprintPersistently, getStoredFingerprintLabel.
  destruct (localStorage (storage c)) as [ls|] eqn:Hls.
  - destruct (sessionStorage (storage c)); cbn; (split; [done|]); (split; [done|]);
      intros _ fp ->; by rewrite bool_decide_eq_true_2.
  - cbn. split; [done|]. split; [done|]. by intros [? ?].
Qed.

(** X5: The label is stable across page loads when persistence is on and
    [localStorage] works: after a first run of [generateFingerprint], a run on
    any instance that has the same configuration and finds the same storage,
    with the same signals, ends with the same label and the same fingerprint,
    whatever [Math.random()] draws. *)
Theorem generateFingerprint_label_stable
    (fuel : nat) (now1 now2 : Z) (p : Providers) (random1 random2 : nat → Q)
    (c c' : Client) :
  (10 ≤ fuel)%nat →
  enableFingerprinting (config c) = true →
  fingerprintPersistence (config c) = true →
  is_Some (localStorage (storage c)) →
  ∃ c1 label,
    generateFingerprint fuel now1 p random1 c = Some c1
    ∧ fingerprintLabel c1 = Some label
    ∧ (config c' = config c → storage c' = storage c1 →
       ∃ c2, generateFingerprint fuel now2 p random2 c' = Some c2
             ∧ fingerprintLabel c2 = Some label
             ∧ fingerprint c2 = fingerprint c1).
Proof.
  intros Hfuel Hen Hpers Hls.
  set (fp := fingerprintOf (collectComponents (fingerprintComponents (config c)) p)).
  destruct (getFingerprintLabel_total c random1 fp fuel Hfuel) as (label & c1 & Hlabel).
  pose proof (getFingerprintLabel_cases _ _ _ _ _ _ Hlabel) as [Htruthy Hcases].
  assert (config c1 = config c ∧ is_Some (localStorage (storage c1))) as [Hcfg1 Hls1].
  { destruct Hcases as [[_ ->]|(n & _ & -> & _)]; [done|].
    destruct (storeFingerprintLabel_fields c fp label) as (Hc & _ & Havail).
    split; [done|]. by apply Havail. }
  set (c2 := {| config := config c1; fingerprint := Some fp; fingerprintLabel := Some label;
                storage := storage c1; errors := errors c1 |}).
  assert (generateFingerprint fuel now1 p random1 c
          = Some (storeFingerprintPersistently now1 c2)) as Hrun1.
  { unfold generateFingerprint. rewrite Hen. cbn [negb]. fold fp. rewrite Hlabel.
    cbn [config].
    by replace (fingerprintPersistence (config c1)) with true by (by rewrite Hcfg1, Hpers). }
  destruct (storeFingerprintPersistently_fields now1 c2) as (Hcfg2 & Hlab2 & Hread2).
  exists (storeFingerprintPersistently now1 c2), label.
  split; [done|]. split; [done|]. intros Hcfg' Hsto'.
  assert (getStoredFingerprintLabel c' fp = Some label) as Hstored.
  { rewrite (getStoredFingerprintLabel_localStorage c' (storeFingerprintPersistently now1 c2) fp)
      by (by rewrite Hsto').
    by apply Hread2. }
  assert (getFingerprintLabel fuel c' random2 fp = Some (label, c')) as Hlabel'.
  { unfold getFingerprintLabel. by rewrite Hstored, Htruthy. }
  set (c2' := {| config := config c'; fingerprint := Some fp; fingerprintLabel := Some label;
                 storage := storage c'; errors := errors c' |}).
  exists (storeFingerprintPersistently now2 c2').
  destruct (storeFingerprintPersistently_fields now2 c2') as (_ & Hlab2' & _).
  split.
  - unfold generateFingerprint. rewrite Hcfg', Hen. cbn [negb]. fold fp. rewrite Hlabel'.
    cbn [config].
    by replace (fingerprintPersistence (config c')) with true by (by rewrite Hcfg', Hpers).
  - split; [done|]. by rewrite !storeFingerprintPersistently_fingerprint.
Qed.

(** X6: Without persistence the label is not stable: [getFingerprintLabel]
    looks for a stored label under [da_fp] only, which is written by
    [storeFingerprintPersistently] and not by [storeFingerprintLabel]. When
    nothing is stored, a run with [fingerprintPersistence] off records its
    label in the registry and leaves the lookup empty, so the next run draws
    again, and returns another label unless its ten candidates are all in use.
    *)
Theorem label_redrawn_without_persistence
    (fuel : nat) (now1 now2 : Z) (p : Providers) (random1 random2 : nat → Q) (c : Client) :
  (10 ≤ fuel)%nat →
  enableFingerprinting (config c) = true →
  fingerprintPersistence (config c) = false →
  is_Some (localStorage (storage c)) →
  (∀ fp, getStoredFingerprintLabel c fp = None) →
  let fp := fingerprintOf (collectComponents (fingerprintComponents (config c)) p) in
  ∃ c1 label1 c2 label2,
    generateFingerprint fuel now1 p random1 c = Some c1
    ∧ fingerprintLabel c1 = Some label1
    ∧ isLabelInUse c1 label1 = true
    ∧ getStoredFingerprintLabel c1 fp = None
    ∧ generateFingerprint fuel now2 p random2 c1 = Some c2
    ∧ fingerprintLabel c2 = Some label2
    ∧ (label2 ≠ label1
       ∨ ∀ i, (i < 10)%nat → isLabelInUse c1 (attempt random2 i) = true).
Proof.
  intros Hfuel Hen Hpers Hls Hnone fp.
  destruct (getFingerprintLabel_total c random1 fp fuel Hfuel) as (label1 & c1 & Hlabel).
  pose proof (getFingerprintLabel_cases _ _ _ _ _ _ Hlabel) as [_ Hcases].
  destruct Hcases as [[Hstored _]|(n1 & Hgen1 & -> & _)]; [by rewrite Hnone in Hstored|].
  destruct (storeFingerprintLabel_fields c fp label1) as (Hcfg1 & Hsame1 & Havail1).
  destruct (Havail1 Hls) as [Hls1 Huse1].
  set (c1 := {| config := config (storeFingerprintLabel c fp label1);
                fingerprint := Some fp; fingerprintLabel := Some label1;
                storage := storage (storeFingerprintLabel c fp label1);
                errors := errors (storeFingerprintLabel c fp label1) |}).
  assert (generateFingerprint fuel now1 p random1 c = Some c1) as Hrun1.
  { unfold generateFingerprint. rewrite Hen. cbn [negb]. fold fp. rewrite Hlabel.
    cbn [config].
    by replace (fingerprintPersistence (config (storeFingerprintLabel c fp label1)))
      with false by (by rewrite Hcfg1, Hpers). }
  assert (getStoredFingerprintLabel c1 fp = None) as Hnone1.
  { rewrite <- (Hnone fp), <- Hsame1. by apply getStoredFingerprintLabel_localStorage. }
  assert (∀ l, isLabelInUse c1 l = isLabelInUse (storeFingerprintLabel c fp label1) l) as Huse
    by done.
  destruct (generateLabel_total c1 random2 fuel 0) as (label2 & n2 & Hgen2); [lia..|].
  pose proof (generateLabel_spec _ _ _ _ _ _ Hgen2) as (Hpos & Hmax & Hlab2 & Hprev & Hlast).
  set (c2 := {| config := config (storeFingerprintLabel c1 fp label2);
                fingerprint := Some fp; fingerprintLabel := Some label2;
                storage := storage (storeFingerprintLabel c1 fp label2);
                errors := errors (storeFingerprintLabel c1 fp label2) |}).
  exists c1, label1, c2, label2.
  split; [done|]. split; [done|]. split; [by rewrite Huse|]. split; [done|].
  split.
  { destruct (storeFingerprintLabel_fields c1 fp label2) as (Hcfg2 & _ & _).
    assert (config c1 = config c) as Hc1 by done.
    unfold generateFingerprint. rewrite Hc1, Hen. cbn [negb]. fold fp.
    unfold getFingerprintLabel. rewrite Hnone1, Hgen2. cbn [config].
    by replace (fingerprintPersistence (config (storeFingerprintLabel c1 fp label2)))
      with false by (by rewrite Hcfg2, Hc1, Hpers). }
  split; [done|].
  destruct Hlast as [Hfree|Hten].
  - left. intros ->. rewrite Huse, Huse1 in Hfree. done.
  - destruct (isLabelInUse c1 label2) eqn:Huse2.
    + right. intros i Hi. destruct (decide (i = n2 - 1)%nat) as [->|Hne].
      * by rewrite <- Hlab2.
      * apply Hprev. cbn in Hmax. lia.
    + left. intros ->. rewrite Huse, Huse1 in Huse2. done.
Qed.

(** X7: The store under [da_fp] holds one record: after
    [storeFingerprintPersistently], the label of any fingerprint other than
    the current one cannot be read, also when it could be read before. *)
Theorem only_current_fingerprint_readable (now : Z) (c : Client) (fp : string) :
  fingerprint c ≠ Some fp →
  getStoredFingerprintLabel (storeFingerprintPersistently now c) fp = None.
Proof.
  intros Hother. unfold storeFingerprintPersistently, getStoredFingerprintLabel.
  destruct (localStorage (storage c)) as [ls|] eqn:Hls; [|cbn; by rewrite Hls].
  destruct (sessionStorage (storage c)); cbn; by rewrite bool_decide_eq_false_2.
Qed.

End IdentityMore.

(** ** Bucketing: two variants, and funnels *)

Section BucketingMore.
Import JsString Json Bucketing BucketingScenarios.

(** X8: For a test declared with at least two variants, the first two of them
    non-empty, a client without assignment gets the first or the second
    variant, which is stored; from then on, whatever calls of the API follow
    (the test may be declared again with other variants), [getABTestVariant]
    returns that variant. *)
Theorem getABTestVariant_two_variants
    (c : Client) (testName v0 v1 : string) (rest : list string) (test : ABTest) :
  da_ab_tests c !! testName = Some test →
  variants test = v0 :: v1 :: rest →
  truthy v0 = true → truthy v1 = true →
  da_ab_assignments c !! userKey c testName = None →
  ∃ v, (v = v0 ∨ v = v1)
       ∧ fst (getABTestVariant testName c) = Str v
       ∧ da_ab_assignments (snd (getABTestVariant testName c)) !! userKey c testName = Some v
       ∧ ∀ ks : list Call,
           getABTestVariant testName (calls (snd (getABTestVariant testName c)) ks)
           = (Str v, calls (snd (getABTestVariant testName c)) ks).
Proof.
  intros Htest Hvs H0 H1 Hnone.
  assert (∃ v, (v = v0 ∨ v = v1) ∧ chooseVariant c testName test = Str v) as (v & Hv & Hchoose).
  { unfold chooseVariant, at_index. rewrite Hvs.
    destruct (PrimFloat.ltb _ _); cbn; eauto. }
  assert (getABTestVariant testName c
          = (Str v, setAssignments c (<[userKey c testName := v]> (da_ab_assignments c))))
    as Hfirst.
  { unfold getABTestVariant. by rewrite Hnone, Htest, Hchoose. }
  rewrite Hfirst. cbn [fst snd].
  set (c1 := setAssignments c (<[userKey c testName := v]> (da_ab_assignments c))).
  assert (da_ab_assignments c1 !! userKey c1 testName = Some v) as Hstored
    by (cbn; apply lookup_insert_eq).
  assert (truthy v = true) as Htruthy by (by destruct Hv as [-> | ->]).
  exists v. split; [done|]. split; [done|]. split; [done|]. intros ks.
  pose proof (calls_keep_assignment ks c1 testName v Hstored Htruthy) as Hkept.
  rewrite <- (userKey_label c1 (calls c1 ks) testName (calls_label ks c1)) in Hkept.
  unfold getABTestVariant. by rewrite Hkept, Htruthy.
Qed.

Lemma isComplete_spec (funnel : Funnel) (entries : list StepEntry) :
  isComplete funnel entries = true ↔ ∀ s, s ∈ steps funnel → s ∈ map step entries.
Proof.
  unfold isComplete. cbv zeta. rewrite forallb_forall. split.
  - intros H s Hs. by apply includes_elem, H, list_elem_of_In.
  - intros H s Hs. by apply includes_elem, H, list_elem_of_In.
Qed.

(** X9: A funnel is complete when each of its steps has been recorded at least
    once, in any order and however many times: the event that
    [trackFunnelStep] sends for a declared step is a [funnel_completed] event
    exactly when every step of the funnel is among the steps recorded so far
    for the client, the one of this call included. *)
Theorem trackFunnelStep_completes
    (now : Z) (c : Client) (funnelName stepName : string) (props : json) (funnel : Funnel) :
  da_funnels c !! funnelName = Some funnel →
  stepName ∈ steps funnel →
  let recorded :=
    match getFunnelData funnelName c with
    | Some p => map step (progress_steps p)
    | None => []
    end ++ [stepName] in
  ∃ type complete,
    events (trackFunnelStep now funnelName stepName props c)
    = events c
      ++ [funnel_progress type funnelName stepName (indexOf stepName (steps funnel))
            (length (steps funnel)) complete props (fingerprintLabel c) now]
    ∧ (type = "funnel_completed"%string ↔ ∀ s, s ∈ steps funnel → s ∈ recorded)
    ∧ (type = "funnel_step"%string ↔ ∃ s, s ∈ steps funnel ∧ s ∉ recorded)
    ∧ (complete = true ↔ type = "funnel_completed"%string).
Proof.
  intros Hfunnel Hstep recorded. unfold trackFunnelStep. rewrite Hfunnel.
  destruct (Z.eqb_spec (indexOf stepName (steps funnel)) (-1)) as [Hmiss|_].
  { by apply indexOf_missing in Hmiss. }
  cbn [events progress_steps startedAt].
  set (entries := progress_steps _ ++ _).
  assert (map step entries = recorded) as Hrec.
  { subst entries recorded. unfold getFunnelData.
    destruct (da_user_funnels c !! userKey c funnelName); by rewrite map_app. }
  pose proof (isComplete_spec funnel entries) as Hspec. rewrite Hrec in Hspec.
  exists (if isComplete funnel entries then "funnel_completed" else "funnel_step")%string,
         (isComplete funnel entries).
  split; [done|].
  destruct (isComplete funnel entries) eqn:Hc.
  - split; [by split; [intros _; apply Hspec|]|].
    split; [|done]. split; [done|].
    intros (s & Hs & Hnot). exfalso. apply Hnot. by apply Hspec.
  - split.
    + split; [done|]. intros Hall. apply Hspec in Hall. done.
    + split; [|done]. split; [|done]. intros _.
      destruct (decide (Forall (fun s => s ∈ recorded) (steps funnel))) as [Hall|Hex].
      * rewrite Forall_forall in Hall. apply Hspec in Hall. done.
      * apply not_Forall_Exists in Hex; [|solve_decision].
        apply Exists_exists in Hex as (s & Hs & Hnot). by exists s.
Qed.

(** X10: Funnels do not interfere: recording a step of one funnel changes the
    progress of no other funnel of the client, and neither the declared
    funnels nor the tests and assignments of the A/B tests. *)
Theorem trackFunnelStep_isolated
    (now : Z) (c : Client) (funnelName stepName other : string) (props : json) :
  other ≠ funnelName →
  getFunnelData other (trackFunnelStep now funnelName stepName props c)
    = getFunnelData other c
  ∧ da_funnels (trackFunnelStep now funnelName stepName props c) = da_funnels c
  ∧ da_ab_tests (trackFunnelStep now funnelName stepName props c) = da_ab_tests c
  ∧ da_ab_assignments (trackFunnelStep now funnelName stepName props c)
    = da_ab_assignments c.
Proof.
  intros Hother. unfold getFunnelData.
  rewrite (userKey_label c _ other (trackFunnelStep_label now funnelName stepName props c)).
  unfold trackFunnelStep. destruct (da_funnels c !! funnelName) as [funnel|]; [|done].
  destruct (indexOf stepName (steps funnel) =? -1); [done|].
  cbn. split; [|done]. apply lookup_insert_ne. intros Heq%userKey_inj. done.
Qed.

End BucketingMore.

(** ** User journey and session replay: bounded histories *)

Section JourneyMore.
Import JsString Json Journey.

Lemma lastN_length {A : Type} (n : nat) (l : list A) : length (lastN n l) = Nat.min n (length l).
Proof. unfold lastN. rewrite length_drop. lia. Qed.

Lemma lastN_suffix {A : Type} (n : nat) (l : list A) : ∃ dropped, l = dropped ++ lastN n l.
Proof. exists (take (length l - n) l). unfold lastN. by rewrite take_drop. Qed.

Lemma lastN_short {A : Type} (n : nat) (l : list A) : (length l ≤ n)%nat → lastN n l = l.
Proof. intros Hl. unfold lastN. by replace (length l - n)%nat with 0%nat by lia. Qed.

(** The last [n] elements of a list only depend on the last [n] elements of
    a prefix of it. *)
Lemma lastN_app_lastN {A : Type} (n : nat) (l k : list A) :
  lastN n (lastN n l ++ k) = lastN n (l ++ k).
Proof.
  destruct (Nat.le_gt_cases (length l) n) as [Hshort|Hlong].
  { by rewrite (lastN_short n l). }
  unfold lastN at 1 3. rewrite !length_app, lastN_length.
  replace (Nat.min n (length l) + length k - n)%nat with (length k) by lia.
  replace (length l + length k - n)%nat with ((length l - n) + length k)%nat by lia.
  rewrite <- drop_drop. f_equal. unfold lastN. rewrite drop_app_le by lia. done.
Qed.

Lemma trackUserJourney_stored (now : Z) (page event : string) (props : json) (c : Client) :
  getUserJourney (trackUserJourney now page event props c)
  = lastN 100 (getUserJourney c ++ [ApiEvent event props now page]).
Proof.
  unfold trackUserJourney, getUserJourney at 1. cbn [da_user_journey].
  destruct (Nat.ltb_spec 100 (length (getUserJourney c ++ [ApiEvent event props now page])));
    [done|].
  by rewrite lastN_short by lia.
Qed.

(** X11: [trackUserJourney] keeps the last hundred events: after one call or
    more, [getUserJourney] returns the last 100 entries of the journey stored
    before followed by the events tracked, in the order of the calls; it never
    holds more than 100 entries, and the latest event is its last entry. *)
Theorem trackUserJourney_keeps_last_100 (c : Client) (t : Tracked) (ts : list Tracked) :
  let c' := fold_left track (t :: ts) c in
  getUserJourney c' = lastN 100 (getUserJourney c ++ map entryOf (t :: ts))
  ∧ (length (getUserJourney c') ≤ 100)%nat
  ∧ last (getUserJourney c') = Some (entryOf (List.last ts t)).
Proof.
  cbv zeta.
  assert (getUserJourney (fold_left track (t :: ts) c)
          = lastN 100 (getUserJourney c ++ map entryOf (t :: ts))) as Hstored.
  { revert c t. induction ts as [|t' ts IH]; intros c t.
    - apply trackUserJourney_stored.
    - change (fold_left track (t :: t' :: ts) c) with (fold_left track (t' :: ts) (track c t)).
      rewrite IH. unfold track at 1. rewrite trackUserJourney_stored.
      rewrite lastN_app_lastN, <- app_assoc. done. }
  split; [done|]. split; [rewrite Hstored, lastN_length; lia|].
  rewrite Hstored.
  assert (∀ (l : list Entry) x, last (lastN 100 (l ++ [x])) = Some x) as Hlast.
  { intros l x. unfold lastN. rewrite length_app. cbn [length].
    rewrite drop_app_le by lia.
    by rewrite last_snoc. }
  destruct (exists_last (l := t :: ts) ltac:(done)) as (front & tl & Heq).
  assert (List.last ts t = tl) as ->.
  { destruct ts as [|t2 ts2].
    - destruct front as [|? [|? ?]]; cbn in Heq; by inversion Heq.
    - change (List.last (t2 :: ts2) t) with (List.last (t :: t2 :: ts2) t).
      rewrite Heq. apply List.last_last. }
  rewrite Heq, map_app, app_assoc. cbn [map]. apply Hlast.
Qed.

Lemma visit_fields (c : Client) (v : PageView) :
  sessionId (visit c v) = sessionId c
  ∧ fingerprintLabel (visit c v) = fingerprintLabel c
  ∧ da_user_journey (visit c v) = Some (userJourney (visit c v))
  ∧ userJourney (visit c v)
    = (if (50 <? length (userJourney c ++ [stepOf c v]))%nat
       then lastN 25 (userJourney c ++ [stepOf c v])
       else userJourney c ++ [stepOf c v]).
Proof. done. Qed.

(** X12: The journey of the instance is bounded, though not by the 50 steps
    its comment announces: whatever its length before, after one call or more
    of [trackJourneyStep] the journey holds at most 50 steps, is what
    [localStorage] holds under [da_user_journey], and is a final part of the
    journey before followed by the steps made, the latest step last; and the
    step that finds 50 entries leaves 25. *)
Theorem trackJourneyStep_bounded (c : Client) (v : PageView) (vs : list PageView) :
  let c' := fold_left visit (v :: vs) c in
  (length (userJourney c') ≤ 50)%nat
  ∧ getUserJourney c' = userJourney c'
  ∧ (∃ dropped, userJourney c ++ map (stepOf c) (v :: vs) = dropped ++ userJourney c')
  ∧ last (userJourney c') = Some (stepOf c (List.last vs v))
  ∧ (length (userJourney c) = 50%nat → length (userJourney (visit c v)) = 25%nat).
Proof.
  cbv zeta.
  assert (∀ c v,
    (length (userJourney (visit c v)) ≤ 50)%nat
    ∧ (∃ dropped, userJourney c ++ [stepOf c v] = dropped ++ userJourney (visit c v))
    ∧ last (userJourney (visit c v)) = Some (stepOf c v)) as Hstep.
  { intros c0 v0. destruct (visit_fields c0 v0) as (_ & _ & _ & ->).
    destruct (Nat.ltb_spec 50 (length (userJourney c0 ++ [stepOf c0 v0]))) as [Hlong|Hshort].
    - split; [rewrite lastN_length; lia|]. split; [apply lastN_suffix|].
      unfold lastN. rewrite length_app in *. cbn [length] in *.
      rewrite drop_app_le by lia. by rewrite last_snoc.
    - split; [done|]. split; [by exists []|]. by rewrite last_snoc. }
  assert (∀ vs c v,
    (length (userJourney (fold_left visit (v :: vs) c)) ≤ 50)%nat
    ∧ da_user_journey (fold_left visit (v :: vs) c)
      = Some (userJourney (fold_left visit (v :: vs) c))
    ∧ (∃ dropped, userJourney c ++ map (stepOf c) (v :: vs)
                  = dropped ++ userJourney (fold_left visit (v :: vs) c))
    ∧ last (userJourney (fold_left visit (v :: vs) c)) = Some (stepOf c (List.last vs v)))
    as Hall.
  { clear c v vs. induction vs as [|v' vs IH]; intros c v.
    - destruct (Hstep c v) as (Hlen & Hsuf & Hlast). by destruct (visit_fields c v) as (_ & _ & ? & _).
    - change (fold_left visit (v :: v' :: vs) c) with (fold_left visit (v' :: vs) (visit c v)).
      destruct (IH (visit c v) v') as (Hlen & Hsto & (d2 & Hsuf) & Hlast).
      destruct (Hstep c v) as (_ & (d1 & Hsuf1) & _).
      split; [done|]. split; [done|]. split.
      + exists (d1 ++ d2). rewrite <- app_assoc, <- Hsuf.
        change (stepOf (visit c v)) with (stepOf c).
        by rewrite app_assoc, <- Hsuf1, <- app_assoc.
      + rewrite Hlast. do 2 f_equal. clear.
        assert (∀ (l : list PageView) a d d', List.last (a :: l) d = List.last (a :: l) d')
          as Hdefault.
        { induction l as [|b l IHl]; intros a d d'; [done|].
          change (List.last (b :: l) d = List.last (b :: l) d'). apply IHl. }
        destruct vs as [|w vs]; [done|].
        change (List.last (w :: vs) v' = List.last (w :: vs) v). apply Hdefault. }
  destruct (Hall vs c v) as (Hlen & Hsto & Hsuf & Hlast).
  split; [done|]. split; [unfold getUserJourney; by rewrite Hsto|].
  split; [done|]. split; [done|].
  intros H50. destruct (visit_fields c v) as (_ & _ & _ & ->).
  rewrite length_app. cbn [length]. rewrite H50. cbn. rewrite lastN_length, length_app.
  cbn [length]. lia.
Qed.

(** X13: The two journeys overwrite each other: an event recorded with
    [trackUserJourney] is in the stored journey right after the call, and a
    [trackJourneyStep] on the same instance writes the journey of the instance
    over it, so that the event is gone from what [getUserJourney] returns
    (unless the instance had it in its own journey). A new page load
    ([initUserJourney], which reads the stored journey first) keeps it. *)
Theorem trackJourneyStep_overwrites (c : Client) (t : Tracked) (v : PageView) :
  entryOf t ∉ userJourney c →
  entryOf t ∈ getUserJourney (track c t)
  ∧ (entryOf t ∉ getUserJourney (visit (track c t) v))
  ∧ getUserJourney (visit (track c t) v) = getUserJourney (visit c v)
  ∧ entryOf t ∈ getUserJourney
                  (initUserJourney (view_time v) (view_url v) (view_title v) (view_referrer v)
                     (track c t)).
Proof.
  intros Hfresh.
  assert (∃ front, getUserJourney (track c t) = front ++ [entryOf t]) as [front Hfront].
  { unfold track. rewrite trackUserJourney_stored. unfold lastN.
    rewrite length_app. cbn [length]. rewrite drop_app_le by lia. by eexists. }
  split; [|split; [|split]].
  - rewrite Hfront. apply elem_of_app. right. by apply list_elem_of_singleton.
  - assert (getUserJourney (visit (track c t) v) = userJourney (visit (track c t) v)) as ->
      by done.
    destruct (visit_fields (track c t) v) as (_ & _ & _ & ->).
    assert (entryOf t ∉ userJourney (track c t) ++ [stepOf (track c t) v]) as Hnot.
    { intros [Hin|Hin]%elem_of_app; [done|].
      apply list_elem_of_singleton in Hin. discriminate Hin. }
    destruct (_ <? _)%nat; [|done].
    intros Hin. apply Hnot. destruct (lastN_suffix 25
      (userJourney (track c t) ++ [stepOf (track c t) v])) as [d Hd].
    rewrite Hd. apply elem_of_app. by right.
  - done.
  - unfold initUserJourney, trackJourneyStep, getUserJourney at 1.
    cbn [da_user_journey userJourney sessionId fingerprintLabel].
    change (loadUserJourney (track c t)) with (getUserJourney (track c t)).
    rewrite Hfront, <- app_assoc. cbn [app].
    set (step := PageStep _ _ _ _ _ _).
    destruct (Nat.ltb_spec 50 (length (front ++ [entryOf t; step]))) as [Hlong|Hshort].
    + unfold lastN. rewrite length_app in *. cbn [length] in *.
      rewrite drop_app_le by lia. apply elem_of_app. right. apply list_elem_of_here.
    + apply elem_of_app. right. apply list_elem_of_here.
Qed.

(** X14: A page load cuts a long journey short: when 50 entries or more are
    stored (by [trackUserJourney], which keeps up to 100, or by earlier
    steps), [initUserJourney] leaves the last 24 of them and the new step. *)
Theorem initUserJourney_truncates (now : Z) (url title referrer : string) (c : Client) :
  (50 ≤ length (getUserJourney c))%nat →
  let c' := initUserJourney now url title referrer c in
  getUserJourney c'
  = lastN 24 (getUserJourney c)
    ++ [PageStep url title referrer now (sessionId c) (fingerprintLabel c)]
  ∧ length (getUserJourney c') = 25%nat
  ∧ userJourney c' = getUserJourney c'.
Proof.
  intros Hlong. cbv zeta.
  unfold initUserJourney, trackJourneyStep, getUserJourney at 1 3 4.
  cbn [da_user_journey userJourney sessionId fingerprintLabel].
  change (loadUserJourney c) with (getUserJourney c).
  set (step := PageStep _ _ _ _ _ _).
  destruct (Nat.ltb_spec 50 (length (getUserJourney c ++ [step]))) as [_|Hshort].
  - unfold lastN. rewrite length_app. cbn [length].
    rewrite drop_app_le by lia.
    replace (length (getUserJourney c) + 1 - 25)%nat
      with (length (getUserJourney c) - 24)%nat by lia.
    split; [done|]. split; [|done]. rewrite length_app, length_drop. cbn [length]. lia.
  - rewrite length_app in Hshort. cbn [length] in Hshort. lia.
Qed.

End JourneyMore.

Section ReplayMore.
Import JsString Replay Journey.

Lemma record_limit (data : list ReplayRecord) (o : Observed) :
  record data o = limitReplayData (data ++ [recordOf o]).
Proof. by destruct o. Qed.

(** X15: The replay buffer is bounded: starting from at most 1000 records (it
    starts empty), after any mutations and interactions recorded the buffer
    holds at most 1000 records, which are a final part of all the records
    made, in order, the latest one last; the record that would be the 1001st
    leaves the last 500. *)
Theorem replay_buffer_bounded (data : list ReplayRecord) (os : list Observed) :
  (length data ≤ 1000)%nat →
  let data' := fold_left record os data in
  (length data' ≤ 1000)%nat
  ∧ (∃ dropped, data ++ map recordOf os = dropped ++ data')
  ∧ (∀ o, last os = Some o → last data' = Some (recordOf o))
  ∧ (∀ o, length data = 1000%nat → length (record data o) = 500%nat).
Proof.
  intros Hdata. cbv zeta.
  assert (∀ (l : list ReplayRecord) x,
    (length (limitReplayData (l ++ [x])) ≤ 1000)%nat
    ∧ (∃ dropped, l ++ [x] = dropped ++ limitReplayData (l ++ [x]))
    ∧ last (limitReplayData (l ++ [x])) = Some x) as Hstep.
  { intros l x. unfold limitReplayData.
    destruct (Nat.ltb_spec 1000 (length (l ++ [x]))) as [Hlong|Hshort].
    - split; [rewrite length_drop; lia|].
      split; [exists (take (length (l ++ [x]) - 500) (l ++ [x])); by rewrite take_drop|].
      rewrite length_app in *. cbn [length] in *.
      rewrite drop_app_le by lia. by rewrite last_snoc.
    - split; [done|]. split; [by exists []|]. by rewrite last_snoc. }
  split; [|split; [|split]].
  - induction os as [|o os IH] using rev_ind; [done|].
    rewrite fold_left_app. cbn [fold_left]. rewrite record_limit. apply Hstep.
  - induction os as [|o os IH] using rev_ind.
    + exists []. by rewrite app_nil_r.
    + destruct IH as [d1 Hd1]. rewrite fold_left_app. cbn [fold_left].
      rewrite record_limit.
      destruct (Hstep (fold_left record os data) (recordOf o)) as (_ & (d2 & Hd2) & _).
      exists (d1 ++ d2). rewrite map_app, app_assoc, Hd1, <- !app_assoc. cbn [map].
      by rewrite <- Hd2.
  - intros o Hlast. destruct os as [|o0 os0] using rev_ind; [done|].
    rewrite last_snoc in Hlast. injection Hlast as ->.
    rewrite fold_left_app. cbn [fold_left]. rewrite record_limit. apply Hstep.
  - intros o H1000. rewrite record_limit. unfold limitReplayData.
    destruct (Nat.ltb_spec 1000 (length (data ++ [recordOf o]))) as [Hlong|Hshort].
    + rewrite length_drop, length_app. cbn [length]. lia.
    + rewrite length_app in Hshort. cbn [length] in Hshort. lia.
Qed.

End ReplayMore.

Section PrivacyMore.
Import JsString Privacy.

Lemma prefix_spec (s : string) : ∀ t : string,
  String.prefix s t = true ↔ ∃ post, t = s +:+ post.
Proof.
  induction s as [|a s IH]; intros [|b t].
  - split; [by exists EmptyString|done].
  - split; [by exists (String b t)|done].
  - split; [done|]. intros [post H]. discriminate H.
  - cbn [String.prefix]. destruct (Ascii.ascii_dec a b) as [->|Hne].
    + rewrite IH. split; intros [post H]; exists post.
      * by rewrite H.
      * by injection H.
    + split; [done|]. intros [post H]. injection H as H1 H2. done.
Qed.

Lemma includes_spec (search : string) : ∀ str : string,
  includes search str = true ↔ ∃ pre post, str = pre +:+ search +:+ post.
Proof.
  induction str as [|a str IH]; cbn [includes].
  - rewrite orb_false_r, prefix_spec. split.
    + intros [post H]. by exists EmptyString, post.
    + intros (pre & post & H). destruct pre as [|b pre]; [by exists post|discriminate H].
  - rewrite orb_true_iff, prefix_spec, IH. split.
    + intros [[post H] | (pre & post & H)].
      * by exists EmptyString, post.
      * exists (String a pre), post. by rewrite H.
    + intros (pre & post & H). destruct pre as [|b pre].
      * left. by exists post.
      * right. exists pre, post. by injection H.
Qed.

Lemma append_assoc (s t u : string) : (s +:+ t) +:+ u = s +:+ t +:+ u.
Proof.
  induction s as [|a s IH]; [done|].
  change (String a ((s +:+ t) +:+ u) = String a (s +:+ t +:+ u)). by rewrite IH.
Qed.

Lemma toLowerCase_app (s t : string) :
  toLowerCase (s +:+ t) = toLowerCase s +:+ toLowerCase t.
Proof.
  induction s as [|a s IH]; [done|].
  change (String (lowerUnit a) (toLowerCase (s +:+ t))
          = String (lowerUnit a) (toLowerCase s +:+ toLowerCase t)).
  by rewrite IH.
Qed.

Lemma lowerUnit_idemp (a : ascii) : lowerUnit (lowerUnit a) = lowerUnit a.
Proof. destruct a as [[] [] [] [] [] [] [] []]; vm_compute; reflexivity. Qed.

Lemma toLowerCase_idemp (s : string) : toLowerCase (toLowerCase s) = toLowerCase s.
Proof.
  induction s as [|a s IH]; [done|]. cbn [toLowerCase]. by rewrite lowerUnit_idemp, IH.
Qed.

Lemma isPII_spec (name : string) :
  isPII name = true
  ↔ ∃ field pre post, field ∈ piiFields ∧ toLowerCase name = pre +:+ field +:+ post.
Proof.
  unfold isPII. rewrite existsb_exists. split.
  - intros (field & Hin & Hinc). apply includes_spec in Hinc as (pre & post & H).
    exists field, pre, post. split; [by apply list_elem_of_In|done].
  - intros (field & pre & post & Hin & H). exists field.
    split; [by apply list_elem_of_In|]. apply includes_spec. by exists pre, post.
Qed.

(** X16: [isPII] looks for its seven words anywhere in the name and without
    regard to case: a name that holds a name taken for personal data is taken
    for personal data too, and so is that name in lower case. *)
Theorem isPII_embedded (name pre post : string) :
  isPII name = true →
  isPII (pre +:+ name +:+ post) = true
  ∧ isPII (toLowerCase (pre +:+ name +:+ post)) = true.
Proof.
  intros (field & p & q & Hin & H)%isPII_spec.
  assert (isPII (pre +:+ name +:+ post) = true) as Hall.
  { apply isPII_spec. exists field, (toLowerCase pre +:+ p), (q +:+ toLowerCase post).
    split; [done|]. rewrite !toLowerCase_app, H.
    by rewrite !append_assoc. }
  split; [done|]. unfold isPII in *. by rewrite toLowerCase_idemp.
Qed.

Lemma assign_keys (key value : string) (fields : list (string * string)) :
  map fst (assign key value fields)
  = if decide (key ∈ map fst fields) then map fst fields else map fst fields ++ [key].
Proof.
  induction fields as [|[k v] fields IH]; cbn [assign map fst].
  - by rewrite decide_False by (by intros ?%elem_of_nil).
  - destruct (String.eqb_spec k key) as [->|Hne]; cbn [map fst].
    + by rewrite decide_True by apply list_elem_of_here.
    + rewrite IH. destruct (decide (key ∈ map fst fields)) as [Hin|Hout].
      * by rewrite decide_True by (by apply list_elem_of_further).
      * rewrite decide_False; [done|]. by intros [?|?]%elem_of_cons.
Qed.

Lemma assign_NoDup (key value : string) (fields : list (string * string)) :
  NoDup (map fst fields) → NoDup (map fst (assign key value fields)).
Proof.
  intros Hnd. rewrite assign_keys. destruct (decide _) as [Hin|Hout]; [done|].
  apply NoDup_app. split; [done|]. split; [|apply NoDup_singleton].
  intros x Hx ->%list_elem_of_singleton. done.
Qed.

Lemma assign_elem (key value k v : string) (fields : list (string * string)) :
  NoDup (map fst fields) →
  (k, v) ∈ assign key value fields
  ↔ (k = key ∧ v = value) ∨ (k ≠ key ∧ (k, v) ∈ fields).
Proof.
  induction fields as [|[k1 v1] fields IH]; cbn [assign map fst]; intros Hnd.
  - rewrite list_elem_of_singleton. split.
    + intros [= -> ->]. by left.
    + intros [[-> ->]|[_ H]]; [done|]. by apply elem_of_nil in H.
  - apply NoDup_cons in Hnd as [Hfresh Hnd].
    destruct (String.eqb_spec k1 key) as [->|Hne]; rewrite !elem_of_cons.
    + split.
      * intros [[= -> ->]|Hin]; [by left|]. right. split; [|by right].
        intros ->. apply Hfresh. apply list_elem_of_fmap. by exists (key, v).
      * intros [[-> ->]|[Hne [[= ? ?]|Hin]]]; [by left|done|by right].
    + rewrite (IH Hnd). split.
      * intros [[= -> ->]|[[-> ->]|[Hk Hin]]].
        -- right. split; [done|by left].
        -- by left.
        -- right. split; [done|by right].
      * intros [[-> ->]|[Hk [[= -> ->]|Hin]]].
        -- right. by left.
        -- by left.
        -- right. right. by split.
Qed.

(** The last entry of a name in the entries of a form. *)
Lemma last_entry_exists (k : string) (entries : list (string * FormValue)) :
  k ∈ map fst entries →
  ∃ before x after, entries = before ++ (k, x) :: after ∧ k ∉ map fst after.
Proof.
  induction entries as [|[k1 x1] entries IH]; cbn [map fst].
  - by intros ?%elem_of_nil.
  - intros Hin. destruct (decide (k ∈ map fst entries)) as [Hlater|Hnot].
    + destruct (IH Hlater) as (before & x & after & -> & Hafter).
      by exists ((k1, x1) :: before), x, after.
    + apply elem_of_cons in Hin as [->|Hin]; [|done].
      by exists [], x1, entries.
Qed.

Lemma last_entry_snoc (k k0 : string) (x x0 : FormValue)
    (entries : list (string * FormValue)) :
  (∃ before after, entries ++ [(k0, x0)] = before ++ (k, x) :: after ∧ k ∉ map fst after)
  ↔ (k = k0 ∧ x = x0)
    ∨ (k ≠ k0 ∧ ∃ before after, entries = before ++ (k, x) :: after ∧ k ∉ map fst after).
Proof.
  split.
  - intros (before & after & Heq & Hafter).
    destruct after as [|e after _] using rev_ind.
    + apply app_inj_tail in Heq as [_ [= -> ->]]. by left.
    + rewrite app_comm_cons, app_assoc in Heq. apply app_inj_tail in Heq as [-> <-].
      rewrite map_app, not_elem_of_app in Hafter. destruct Hafter as [Hafter Hk0].
      right. split.
      * intros ->. apply Hk0. cbn. apply list_elem_of_here.
      * by exists before, after.
  - intros [[-> ->]|(Hne & before & after & -> & Hafter)].
    + exists entries, []. split; [done|]. by intros ?%elem_of_nil.
    + exists before, (after ++ [(k0, x0)]). split; [by rewrite <- app_assoc|].
      rewrite map_app, not_elem_of_app. split; [done|].
      cbn. by intros ->%list_elem_of_singleton.
Qed.

(** What the loop of [trackFormSubmission] leaves in [fields]: one property
    for each name it keeps, with the value of the last entry of that name. *)
Lemma collectFields_spec (maskPII : bool) (entries : list (string * FormValue)) :
  NoDup (map fst (collectFields maskPII entries))
  ∧ ∀ k v, (k, v) ∈ collectFields maskPII entries
    ↔ (maskPII = false ∨ isPII k = false) ∧ k ≠ "__proto__"%string
      ∧ ∃ before x after,
          entries = before ++ (k, x) :: after ∧ (k ∉ map fst after) ∧ v = fieldValue x.
Proof.
  unfold collectFields.
  induction entries as [|[k0 x0] entries [IHnd IH]] using rev_ind.
  - split; [apply NoDup_nil_2|]. intros k v. split; [by intros ?%elem_of_nil|].
    intros (_ & _ & before & x & after & H & _). by destruct before.
  - rewrite fold_left_app. cbn [fold_left fst snd].
    set (fields := fold_left _ entries []) in *.
    assert (∀ k v,
      (∃ before x after, entries ++ [(k0, x0)] = before ++ (k, x) :: after
         ∧ (k ∉ map fst after) ∧ v = fieldValue x)
      ↔ (k = k0 ∧ v = fieldValue x0)
        ∨ (k ≠ k0 ∧ ∃ before x after, entries = before ++ (k, x) :: after
             ∧ (k ∉ map fst after) ∧ v = fieldValue x)) as Hlast.
    { intros k v. split.
      - intros (before & x & after & Heq & Hafter & ->).
        destruct (proj1 (last_entry_snoc k k0 x x0 entries)) as [[-> ->]|(Hne & b & a & ? & ?)].
        + by exists before, after.
        + by left.
        + right. split; [done|]. by exists b, x, a.
      - intros [[-> ->]|(Hne & before & x & after & Heq & Hafter & ->)].
        + destruct (proj2 (last_entry_snoc k0 k0 x0 x0 entries)) as (b & a & ? & ?);
            [by left|]. by exists b, x0, a.
        + destruct (proj2 (last_entry_snoc k k0 x x0 entries)) as (b & a & ? & ?).
          * right. split; [done|]. by exists before, after.
          * by exists b, x, a. }
    destruct (negb maskPII || negb (isPII k0)) eqn:Hkeep; unfold setField;
      [destruct (String.eqb_spec k0 "__proto__") as [Hproto|Hproto]|].
    + split; [done|]. intros k v. rewrite IH, Hlast. split.
      * intros (Hk & Hp & Hex). split; [done|]. split; [done|]. right.
        split; [|done]. by intros ->.
      * intros (Hk & Hp & [[-> ->]|(Hne & Hex)]); [done|]. by split.
    + split; [by apply assign_NoDup|]. intros k v.
      rewrite (assign_elem _ _ _ _ _ IHnd), IH, Hlast.
      apply orb_true_iff in Hkeep. split.
      * intros [[-> ->]|(Hne & Hk & Hp & Hex)].
        -- split; [|split; [done|by left]].
           destruct Hkeep as [?%negb_true_iff|?%negb_true_iff]; [by left|by right].
        -- split; [done|]. split; [done|]. right. by split.
      * intros (Hk & Hp & [[-> ->]|(Hne & Hex)]); [by left|]. right. by split.
    + split; [done|]. intros k v. rewrite IH, Hlast.
      apply orb_false_iff in Hkeep as [Hmask%negb_false_iff Hpii%negb_false_iff].
      split.
      * intros (Hk & Hp & Hex). split; [done|]. split; [done|]. right.
        split; [|done]. intros ->. destruct Hk; congruence.
      * intros (Hk & Hp & [[-> ->]|(Hne & Hex)]); [destruct Hk; congruence|]. by split.
Qed.

Lemma substring_length (n : nat) : ∀ (s : string), (String.length (String.substring 0 n s) ≤ n)%nat.
Proof.
  induction n as [|n IH]; intros [|a s]; cbn; try lia.
  specialize (IH s). lia.
Qed.

(** X17: With [maskPII] set, the event of a form submission carries no value
    of any field, and the names it carries are, each once, the names of the
    form that [isPII] does not take for personal data. *)
Theorem form_submission_masked (entries : list (string * FormValue)) :
  ∃ names, reportedFields true entries = Names names
  ∧ NoDup names
  ∧ ∀ k, k ∈ names
      ↔ k ∈ map fst entries ∧ isPII k = false ∧ k ≠ "__proto__"%string.
Proof.
  destruct (collectFields_spec true entries) as [Hnd Hspec].
  exists (map fst (collectFields true entries)). split; [done|]. split; [done|].
  intros k. rewrite list_elem_of_fmap. split.
  - intros ([k' v] & -> & Hin). apply Hspec in Hin as ([?|?] & Hp & before & x & after & -> & _);
      [done|]. split; [|done]. rewrite map_app. apply elem_of_app. right. apply list_elem_of_here.
  - intros (Hin & Hpii & Hp).
    destruct (last_entry_exists k entries Hin) as (before & x & after & Heq & Hafter).
    exists (k, fieldValue x). split; [done|]. apply Hspec. split; [by right|]. split; [done|].
    by exists before, x, after.
Qed.

(** X18: Without [maskPII], the event of a form submission carries every field
    of the form, those that [isPII] takes for personal data too: each name
    once, with the first hundred characters of the value of its last entry (or
    [[file]]). *)
Theorem form_submission_unmasked (entries : list (string * FormValue)) :
  ∃ fields, reportedFields false entries = Fields fields
  ∧ NoDup (map fst fields)
  ∧ (∀ k v, (k, v) ∈ fields
      ↔ k ≠ "__proto__"%string
        ∧ ∃ before x after,
            entries = before ++ (k, x) :: after ∧ (k ∉ map fst after) ∧ v = fieldValue x)
  ∧ (∀ k v, (k, v) ∈ fields → (String.length v ≤ 100)%nat).
Proof.
  destruct (collectFields_spec false entries) as [Hnd Hspec].
  exists (collectFields false entries). split; [done|]. split; [done|]. split.
  - intros k v. rewrite Hspec. split; [by intros (_ & ? & ?)|].
    intros [? ?]. split; [by left|done].
  - intros k v (_ & _ & before & x & after & _ & _ & ->)%Hspec.
    destruct x as [s|]; [apply substring_length|cbn; lia].
Qed.

End PrivacyMore.

(** ** Consent: the cookie lookup *)

Section ConsentMore.
Import JsString Consent.

Lemma append_nil_r (s : string) : s +:+ EmptyString = s.
Proof.
  induction s as [|a s IH]; [done|].
  change (String a (s +:+ EmptyString) = String a s). by rewrite IH.
Qed.

Lemma splitFrom_skip (sep : string) (t : string) : ∀ (piece rest : string),
  splitFrom sep (String.length t) piece (t +:+ rest) = splitFrom sep 0 piece rest.
Proof.
  induction t as [|a t IH]; intros piece rest; [done|].
  change (splitFrom sep (String.length t) piece (t +:+ rest) = splitFrom sep 0 piece rest).
  apply IH.
Qed.

Lemma prefix_other (a b : ascii) (sep s : string) :
  a ≠ b → String.prefix (String a sep) (String b s) = false.
Proof. intros Hne. cbn [String.prefix]. by destruct (Ascii.ascii_dec a b). Qed.

Lemma prefix_same (a : ascii) (sep s : string) :
  String.prefix (String a sep) (String a s) = String.prefix sep s.
Proof. cbn [String.prefix]. by destruct (Ascii.ascii_dec a a). Qed.

Lemma prefix_nil (s : string) : String.prefix EmptyString s = true.
Proof. by destruct s. Qed.

Lemma splitFrom_plain (a : ascii) (sep : string) (t : string) : ∀ (piece rest : string),
  occurs a t = false →
  splitFrom (String a sep) 0 piece (t +:+ rest)
  = splitFrom (String a sep) 0 (piece +:+ t) rest.
Proof.
  induction t as [|b t IH]; intros piece rest Hplain.
  - by rewrite append_nil_r.
  - cbn [occurs] in Hplain. apply orb_false_iff in Hplain as [Hb Ht].
    apply Ascii.eqb_neq in Hb.
    change (String b t +:+ rest) with (String b (t +:+ rest)).
    cbn [splitFrom]. rewrite prefix_other by done.
    rewrite (IH _ _ Ht), append_assoc. done.
Qed.

Lemma prefix_name (name : string) : ∀ (n tail : string),
  occurs "=" name = false → occurs "=" n = false →
  String.prefix (name +:+ "=") (n +:+ "=" +:+ tail) = String.eqb n name.
Proof.
  induction name as [|a name IH]; intros [|b n] tail Hname Hn.
  - change (String.prefix (String "=" EmptyString) (String "=" tail) = true).
    by rewrite prefix_same, prefix_nil.
  - cbn [occurs] in Hn. apply orb_false_iff in Hn as [Hb _]. apply Ascii.eqb_neq in Hb.
    change (String.prefix (String "=" EmptyString) (String b (n +:+ "=" +:+ tail)) = false).
    by apply prefix_other.
  - cbn [occurs] in Hname. apply orb_false_iff in Hname as [Ha _]. apply Ascii.eqb_neq in Ha.
    change (String.prefix (String a (name +:+ "=")) (String "=" tail) = false).
    apply prefix_other. congruence.
  - cbn [occurs] in Hname, Hn.
    apply orb_false_iff in Hname as [_ Hname]. apply orb_false_iff in Hn as [_ Hn].
    change (String.prefix (String a (name +:+ "=")) (String b (n +:+ "=" +:+ tail))
            = String.eqb (String b n) (String a name)).
    cbn [String.prefix String.eqb].
    destruct (Ascii.ascii_dec a b) as [->|Hne].
    + rewrite Ascii.eqb_refl. by apply IH.
    + destruct (Ascii.eqb_spec b a); [congruence|done].
Qed.

Lemma nameOk_spec (name : string) :
  nameOk name = true → occurs ";" name = false ∧ occurs "=" name = false.
Proof.
  unfold nameOk. intros [[_ H1]%andb_true_iff H2]%andb_true_iff.
  by apply negb_true_iff in H1, H2.
Qed.

Lemma occurs_app (a : ascii) (s t : string) :
  occurs a (s +:+ t) = occurs a s || occurs a t.
Proof.
  induction s as [|b s IH]; [done|].
  change (Ascii.eqb a b || occurs a (s +:+ t) = Ascii.eqb a b || occurs a s || occurs a t).
  by rewrite IH, orb_assoc.
Qed.

(** [split] over the block of a cookie. *)
Lemma splitFrom_block (name piece rest : string) (c : string * string) :
  nameOk name = true → cookieOk c = true →
  splitFrom ("; " +:+ name +:+ "=") 0 piece (block c +:+ rest)
  = if String.eqb (fst c) name
    then piece :: splitFrom ("; " +:+ name +:+ "=") 0 (snd c) rest
    else splitFrom ("; " +:+ name +:+ "=") 0 (piece +:+ block c) rest.
Proof.
  intros [Hsemi Heq]%nameOk_spec [[Hcsemi Hceq]%nameOk_spec Hv%negb_true_iff]%andb_true_iff.
  destruct c as [n v]. cbn [fst snd] in *. unfold block. cbn [fst snd].
  assert (String.prefix ("; " +:+ name +:+ "=") (("; " +:+ n +:+ "=" +:+ v) +:+ rest)
          = String.eqb n name) as Hstart.
  { change (String.prefix (String ";" (String " " (name +:+ "=")))
              (String ";" (String " " ((n +:+ "=" +:+ v) +:+ rest))) = String.eqb n name).
    rewrite !prefix_same, !append_assoc. by apply prefix_name. }
  change (("; " +:+ n +:+ "=" +:+ v) +:+ rest)
    with (String ";" ((" " +:+ n +:+ "=" +:+ v) +:+ rest)) in *.
  change ("; " +:+ name +:+ "=") with (String ";" (" " +:+ name +:+ "=")) in *.
  cbn [splitFrom]. rewrite Hstart.
  destruct (String.eqb_spec n name) as [->|Hne].
  - f_equal.
    change (String.length (String ";" (" " +:+ name +:+ "=")) - 1)%nat
      with (String.length (" " +:+ name +:+ "=") - 0)%nat.
    rewrite Nat.sub_0_r.
    replace ((" " +:+ name +:+ "=" +:+ v) +:+ rest)
      with ((" " +:+ name +:+ "=") +:+ v +:+ rest) by (by rewrite !append_assoc).
    rewrite splitFrom_skip. by rewrite splitFrom_plain.
  - rewrite splitFrom_plain.
    + by rewrite !append_assoc.
    + rewrite !occurs_app, Hcsemi, Hv. done.
Qed.

Lemma split_blocks (name : string) (jar : list (string * string)) : ∀ piece : string,
  nameOk name = true → forallb cookieOk jar = true →
  splitFrom ("; " +:+ name +:+ "=") 0 piece (blocks jar) = pieces name piece jar.
Proof.
  induction jar as [|c jar IH]; intros piece Hname Hjar; [done|].
  cbn [forallb] in Hjar. apply andb_true_iff in Hjar as [Hc Hjar].
  cbn [blocks fold_right pieces]. fold (blocks jar).
  rewrite splitFrom_block by done.
  destruct (String.eqb (fst c) name); by rewrite IH.
Qed.

Lemma pieces_none (name : string) (jar : list (string * string)) : ∀ piece : string,
  named name jar = [] → pieces name piece jar = [piece +:+ blocks jar].
Proof.
  induction jar as [|c jar IH]; intros piece Hnone.
  - by rewrite append_nil_r.
  - unfold named in Hnone. cbn [List.filter pieces] in *.
    destruct (String.eqb (fst c) name); [done|].
    rewrite (IH _ Hnone), append_assoc. done.
Qed.

Lemma pieces_one (name : string) (jar : list (string * string)) :
  ∀ (piece : string) (c : string * string),
  named name jar = [c] →
  ∃ first later, pieces name piece jar = [first; snd c +:+ blocks later].
Proof.
  induction jar as [|c0 jar IH]; intros piece c Hone; [done|].
  unfold named in Hone. cbn [List.filter pieces] in *.
  destruct (String.eqb (fst c0) name).
  - injection Hone as -> Hnone. exists piece, jar. by rewrite (pieces_none _ _ _ Hnone).
  - by apply IH.
Qed.

Lemma pieces_length (name : string) (jar : list (string * string)) : ∀ piece : string,
  length (pieces name piece jar) = S (length (named name jar)).
Proof.
  induction jar as [|c jar IH]; intros piece; [done|].
  unfold named. cbn [List.filter pieces].
  destruct (String.eqb (fst c) name); cbn [length]; by rewrite IH.
Qed.

Lemma value_blocks (c : string * string) (jar : list (string * string)) :
  "; " +:+ documentCookie (c :: jar) = blocks (c :: jar).
Proof.
  revert c. induction jar as [|c' jar IH]; intros c.
  - unfold documentCookie, blocks, block. cbn [map join fold_right].
    by rewrite !append_assoc, append_nil_r.
  - unfold documentCookie in *. cbn [map join blocks fold_right] in *.
    fold (blocks jar) in *. rewrite <- (IH c'). unfold block.
    by rewrite !append_assoc.
Qed.

Lemma first_value (v : string) (later : list (string * string)) :
  occurs ";" v = false → head (split ";" (v +:+ blocks later)) = Some v.
Proof.
  intros Hv. unfold split. rewrite splitFrom_plain by done.
  destruct later as [|c later]; [done|].
  cbn [blocks fold_right]. unfold block.
  change (("; " +:+ fst c +:+ "=" +:+ snd c) +:+ _)
    with (String ";" ((" " +:+ fst c +:+ "=" +:+ snd c)
                      +:+ fold_right (fun c0 rest => block c0 +:+ rest) EmptyString later)).
  cbn [splitFrom]. by rewrite prefix_same, prefix_nil.
Qed.

(** The result of [getCookie] by the cookies of the name. *)
Lemma getCookie_lookup (name : string) (jar : list (string * string)) :
  nameOk name = true →
  forallb cookieOk jar = true →
  getCookie (documentCookie jar) name
  = match named name jar with
    | [c] => Some (snd c)
    | _ => None
    end.
Proof.
  intros Hname Hjar. unfold getCookie. cbv zeta. unfold split.
  destruct jar as [|c0 jar].
  - destruct (nameOk_spec _ Hname) as [Hsemi _].
    assert (splitFrom ("; " +:+ name +:+ "=") 0 EmptyString ("; " +:+ documentCookie [])
            = ["; "%string]) as ->; [|done].
    change ("; " +:+ documentCookie []) with (String ";" (String " " EmptyString)).
    change ("; " +:+ name +:+ "=") with (String ";" (String " " (name +:+ "="))).
    cbn [splitFrom]. rewrite !prefix_same.
    replace (String.prefix (name +:+ "=") EmptyString) with false by (by destruct name).
    by rewrite prefix_other.
  - rewrite value_blocks, split_blocks by done.
    pose proof (pieces_length name (c0 :: jar) EmptyString) as Hlen.
    destruct (named name (c0 :: jar)) as [|c [|c' more]] eqn:Hnamed.
    + by rewrite Hlen.
    + destruct (pieces_one name (c0 :: jar) EmptyString c Hnamed) as (first & later & ->).
      cbn [length Nat.eqb last]. apply first_value.
      assert (In c (c0 :: jar)) as Hin.
      { apply (proj1 (filter_In (fun c => String.eqb (fst c) name) c (c0 :: jar))).
        fold (named name (c0 :: jar)). rewrite Hnamed. by left. }
      rewrite forallb_forall in Hjar.
      apply Hjar, andb_true_iff in Hin as [_ Hv]. by apply negb_true_iff.
    + by rewrite Hlen.
Qed.

(** X19: [getCookie] finds a cookie that is there once: for cookies with
    proper names and values, it returns the value of the cookie of the given
    name when the page has exactly one such cookie, and [null] when it has
    none or more than one. *)
Theorem getCookie_named (name : string) (jar : list (string * string)) :
  nameOk name = true →
  forallb cookieOk jar = true →
  (∀ value, named name jar = [(name, value)]
            → getCookie (documentCookie jar) name = Some value)
  ∧ (named name jar = [] → getCookie (documentCookie jar) name = None)
  ∧ ((2 ≤ length (named name jar))%nat → getCookie (documentCookie jar) name = None)
  ∧ (is_Some (getCookie (documentCookie jar) name) ↔ length (named name jar) = 1%nat).
Proof.
  intros Hname Hjar. rewrite (getCookie_lookup name jar Hname Hjar).
  split; [by intros value ->|]. split; [by intros ->|].
  destruct (named name jar) as [|c [|c' more]]; cbn [length].
  - split; [done|]. split; [by intros [? ?]|done].
  - split; [lia|]. split; [done|by eexists].
  - split; [done|]. split; [by intros [? ?]|done].
Qed.

(** X20: With [requireConsent], consent is given exactly when the page has one
    cookie of the configured name, and no more than one, whose value is [true]
    or [1]; without it, always. *)
Theorem hasConsent_one_cookie
    (requireConsent : bool) (name : string) (jar : list (string * string)) :
  nameOk name = true →
  forallb cookieOk jar = true →
  hasConsent requireConsent name (documentCookie jar) = true
  ↔ requireConsent = false
    ∨ ∃ value, named name jar = [(name, value)]
               ∧ (value = "true"%string ∨ value = "1"%string).
Proof.
  intros Hname Hjar. unfold hasConsent. rewrite (getCookie_lookup name jar Hname Hjar).
  destruct requireConsent; cbn [negb]; [|by split; [left|]].
  assert (∀ c, In c (named name jar) → fst c = name) as Hfst.
  { intros c [_ Hc]%filter_In. by apply String.eqb_eq. }
  destruct (named name jar) as [|[n v] [|c' more]] eqn:Hnamed.
  - split; [done|]. by intros [?|(value & ? & _)].
  - assert (n = name) as -> by (apply (Hfst (n, v)); by left). cbn [snd]. split.
    + intros [H|H]%orb_true_iff; apply String.eqb_eq in H; right; exists v; by auto.
    + intros [?|(value & [= ->] & [-> | ->])]; [done|done|done].
  - split; [done|]. by intros [?|(value & ? & _)].
Qed.

End ConsentMore.

(** ** Instances of the further properties *)

Section MoreInstances.
Import JsString Json.


Lemma flush_sends_one_batch_witness :
  ∃ st',
    Delivery.flushEventQueue DeliveryCases.up 5 DeliveryCases.backlog = Some st'
    ∧ Delivery.transmitted st'
      = Delivery.transmitted DeliveryCases.backlog
        ++ take (Delivery.batchSize DeliveryCases.backlog)
             (Delivery.eventQueue DeliveryCases.backlog)
    ∧ Delivery.delivered st'
      = Delivery.delivered DeliveryCases.backlog
        ++ take (Delivery.batchSize DeliveryCases.backlog)
             (Delivery.eventQueue DeliveryCases.backlog)
    ∧ Delivery.eventQueue st'
      = drop (Delivery.batchSize DeliveryCases.backlog)
          (Delivery.eventQueue DeliveryCases.backlog)
    ∧ (Delivery.batchSize DeliveryCases.backlog = 0%nat → st' = DeliveryCases.backlog).
Proof.
  apply (flush_sends_one_batch DeliveryCases.up 5 DeliveryCases.backlog).
  - lia.
  - intros n e _. reflexivity.
Defined.

Lemma failing_send_retries_forever_witness :
  Delivery.sendToDiscord DeliveryScenarios.down 1000 10%nat DeliveryCases.almostFull = None
  ∧ Delivery.sendEvent DeliveryScenarios.down 1000 true false 10%nat DeliveryCases.almostFull
    = None.
Proof.
  apply (failing_send_retries_forever DeliveryScenarios.down (fun _ _ => eq_refl)
           10%nat DeliveryCases.almostFull 1000).
  - reflexivity.
  - simpl. lia.
  - simpl. lia.
Defined.

Lemma generateFingerprint_label_stable_witness :
  ∃ c1 label c2,
    Identity.generateFingerprint 10 1000 IdentityScenarios.sampleProviders (fun _ => 0%Q)
      IdentityScenarios.freshClient = Some c1
    ∧ Identity.fingerprintLabel c1 = Some label
    ∧ Identity.generateFingerprint 10 2000 IdentityScenarios.sampleProviders
        (fun _ => (1 # 2)%Q) c1 = Some c2
    ∧ Identity.fingerprintLabel c2 = Some label
    ∧ Identity.fingerprint c2 = Identity.fingerprint c1.
Proof.
  destruct (generateFingerprint_label_stable 10 1000 2000 IdentityScenarios.sampleProviders
              (fun _ => 0%Q) (fun _ => (1 # 2)%Q)
              IdentityScenarios.freshClient
              (default IdentityScenarios.freshClient
                 (Identity.generateFingerprint 10 1000 IdentityScenarios.sampleProviders
                    (fun _ => 0%Q) IdentityScenarios.freshClient)))
    as (c1 & label & Hrun & Hlabel & Hnext);
    [lia | reflexivity | reflexivity | eexists; reflexivity|].
  rewrite Hrun in Hnext. simpl in Hnext.
  destruct Hnext as (c2 & Hrun2 & Hlabel2 & Hfp2).
  - vm_compute in Hrun. injection Hrun as <-. reflexivity.
  - reflexivity.
  - exists c1, label, c2. repeat split; assumption.
Defined.

Lemma label_redrawn_without_persistence_witness :
  ∃ c1 label1 c2 label2,
    Identity.generateFingerprint 10 1000 IdentityScenarios.sampleProviders (fun _ => 0%Q)
      IdentityCases.withoutPersistence = Some c1
    ∧ Identity.fingerprintLabel c1 = Some label1
    ∧ Identity.isLabelInUse c1 label1 = true
    ∧ Identity.getStoredFingerprintLabel c1
        (Identity.fingerprintOf
           (Identity.collectComponents
              (Identity.fingerprintComponents (Identity.config IdentityCases.withoutPersistence))
              IdentityScenarios.sampleProviders)) = None
    ∧ Identity.generateFingerprint 10 2000 IdentityScenarios.sampleProviders
        (fun _ => (1 # 2)%Q) c1 = Some c2
    ∧ Identity.fingerprintLabel c2 = Some label2
    ∧ (label2 ≠ label1
       ∨ ∀ i, (i < 10)%nat
              → Identity.isLabelInUse c1 (Identity.attempt (fun _ => (1 # 2)%Q) i) = true).
Proof.
  apply (label_redrawn_without_persistence 10 1000 2000 IdentityScenarios.sampleProviders
           (fun _ => 0%Q) (fun _ => (1 # 2)%Q) IdentityCases.withoutPersistence).
  - lia.
  - reflexivity.
  - reflexivity.
  - eexists. reflexivity.
  - intros fp. reflexivity.
Defined.

Lemma only_current_fingerprint_readable_witness :
  Identity.getStoredFingerprintLabel
    (Identity.storeFingerprintPersistently 1000 IdentityScenarios.onlyLocalStorage) "beef"
  = None.
Proof.
  apply (only_current_fingerprint_readable 1000 IdentityScenarios.onlyLocalStorage "beef").
  discriminate.
Defined.

Lemma getABTestVariant_two_variants_witness :
  ∃ v, (v = "a"%string ∨ v = "b"%string)
       ∧ fst (Bucketing.getABTestVariant "banner" BucketingCases.declared) = Bucketing.Str v
       ∧ Bucketing.da_ab_assignments
           (snd (Bucketing.getABTestVariant "banner" BucketingCases.declared))
           !! Bucketing.userKey BucketingCases.declared "banner" = Some v
       ∧ ∀ ks : list Bucketing.Call,
           Bucketing.getABTestVariant "banner"
             (Bucketing.calls
                (snd (Bucketing.getABTestVariant "banner" BucketingCases.declared)) ks)
           = (Bucketing.Str v,
              Bucketing.calls
                (snd (Bucketing.getABTestVariant "banner" BucketingCases.declared)) ks).
Proof.
  apply (getABTestVariant_two_variants BucketingCases.declared "banner" "a" "b" []
           BucketingCases.twoBanners).
  - vm_compute. reflexivity.
  - reflexivity.
  - reflexivity.
  - reflexivity.
  - vm_compute. reflexivity.
Defined.

Lemma trackFunnelStep_completes_witness :
  ∃ type complete,
    Bucketing.events
      (Bucketing.trackFunnelStep 2000 "signup_flow" "signup_form" JNull BucketingCases.landed)
    = Bucketing.events BucketingCases.landed
      ++ [Bucketing.funnel_progress type "signup_flow" "signup_form"
            (Bucketing.indexOf "signup_form" (Bucketing.steps BucketingCases.twoSteps))
            (length (Bucketing.steps BucketingCases.twoSteps)) complete JNull
            (Bucketing.fingerprintLabel BucketingCases.landed) 2000]
    ∧ (type = "funnel_completed"%string
       ↔ ∀ s, s ∈ Bucketing.steps BucketingCases.twoSteps
              → s ∈ match Bucketing.getFunnelData "signup_flow" BucketingCases.landed with
                    | Some p => map Bucketing.step (Bucketing.progress_steps p)
                    | None => []
                    end ++ ["signup_form"%string])
    ∧ (type = "funnel_step"%string
       ↔ ∃ s, s ∈ Bucketing.steps BucketingCases.twoSteps
              ∧ s ∉ match Bucketing.getFunnelData "signup_flow" BucketingCases.landed with
                    | Some p => map Bucketing.step (Bucketing.progress_steps p)
                    | None => []
                    end ++ ["signup_form"%string])
    ∧ (complete = true ↔ type = "funnel_completed"%string).
Proof.
  apply (trackFunnelStep_completes 2000 BucketingCases.landed "signup_flow" "signup_form"
           JNull BucketingCases.twoSteps).
  - vm_compute. reflexivity.
  - simpl. apply list_elem_of_further, list_elem_of_here.
Defined.

Lemma trackFunnelStep_isolated_witness :
  Bucketing.getFunnelData "checkout"
    (Bucketing.trackFunnelStep 3000 "signup_flow" "signup_form" JNull
       BucketingScenarios.signedUp)
  = Bucketing.getFunnelData "checkout" BucketingScenarios.signedUp
  ∧ Bucketing.da_funnels
      (Bucketing.trackFunnelStep 3000 "signup_flow" "signup_form" JNull
         BucketingScenarios.signedUp)
    = Bucketing.da_funnels BucketingScenarios.signedUp
  ∧ Bucketing.da_ab_tests
      (Bucketing.trackFunnelStep 3000 "signup_flow" "signup_form" JNull
         BucketingScenarios.signedUp)
    = Bucketing.da_ab_tests BucketingScenarios.signedUp
  ∧ Bucketing.da_ab_assignments
      (Bucketing.trackFunnelStep 3000 "signup_flow" "signup_form" JNull
         BucketingScenarios.signedUp)
    = Bucketing.da_ab_assignments BucketingScenarios.signedUp.
Proof.
  apply (trackFunnelStep_isolated 3000 BucketingScenarios.signedUp "signup_flow"
           "signup_form" "checkout" JNull).
  discriminate.
Defined.

Lemma trackJourneyStep_overwrites_witness :
  Journey.entryOf JourneyCases.purchase
    ∈ Journey.getUserJourney (Journey.track JourneyCases.newVisitor JourneyCases.purchase)
  ∧ (Journey.entryOf JourneyCases.purchase
       ∉ Journey.getUserJourney
           (Journey.visit (Journey.track JourneyCases.newVisitor JourneyCases.purchase)
              JourneyCases.thanksPage))
  ∧ Journey.getUserJourney
      (Journey.visit (Journey.track JourneyCases.newVisitor JourneyCases.purchase)
         JourneyCases.thanksPage)
    = Journey.getUserJourney (Journey.visit JourneyCases.newVisitor JourneyCases.thanksPage)
  ∧ Journey.entryOf JourneyCases.purchase
      ∈ Journey.getUserJourney
          (Journey.initUserJourney (Journey.view_time JourneyCases.thanksPage)
             (Journey.view_url JourneyCases.thanksPage)
             (Journey.view_title JourneyCases.thanksPage)
             (Journey.view_referrer JourneyCases.thanksPage)
             (Journey.track JourneyCases.newVisitor JourneyCases.purchase)).
Proof.
  apply (trackJourneyStep_overwrites JourneyCases.newVisitor JourneyCases.purchase
           JourneyCases.thanksPage).
  simpl. apply not_elem_of_nil.
Defined.

Lemma initUserJourney_truncates_witness :
  Journey.getUserJourney
    (Journey.initUserJourney 3000 "https://example.org/thanks" "Thanks" ""
       JourneyCases.busyVisitor)
  = Journey.lastN 24 (Journey.getUserJourney JourneyCases.busyVisitor)
    ++ [Journey.PageStep "https://example.org/thanks" "Thanks" "" 3000
          (Journey.sessionId JourneyCases.busyVisitor)
          (Journey.fingerprintLabel JourneyCases.busyVisitor)]
  ∧ length (Journey.getUserJourney
              (Journey.initUserJourney 3000 "https://example.org/thanks" "Thanks" ""
                 JourneyCases.busyVisitor)) = 25%nat
  ∧ Journey.userJourney
      (Journey.initUserJourney 3000 "https://example.org/thanks" "Thanks" ""
         JourneyCases.busyVisitor)
    = Journey.getUserJourney
        (Journey.initUserJourney 3000 "https://example.org/thanks" "Thanks" ""
           JourneyCases.busyVisitor).
Proof.
  apply (initUserJourney_truncates 3000 "https://example.org/thanks" "Thanks" ""
           JourneyCases.busyVisitor).
  vm_compute. lia.
Defined.

Lemma replay_buffer_bounded_witness :
  (length (fold_left Replay.record [JourneyCases.buyClick] []) ≤ 1000)%nat
  ∧ (∃ dropped, [] ++ map Replay.recordOf [JourneyCases.buyClick]
                = dropped ++ fold_left Replay.record [JourneyCases.buyClick] [])
  ∧ (∀ o, last [JourneyCases.buyClick] = Some o
          → last (fold_left Replay.record [JourneyCases.buyClick] [])
            = Some (Replay.recordOf o))
  ∧ (∀ o, length (@nil Replay.ReplayRecord) = 1000%nat
          → length (Replay.record [] o) = 500%nat).
Proof.
  apply (replay_buffer_bounded [] [JourneyCases.buyClick]).
  simpl. lia.
Defined.

Lemma isPII_embedded_witness :
  Privacy.isPII ("user_" +:+ "Email" +:+ "_2") = true
  ∧ Privacy.isPII (Privacy.toLowerCase ("user_" +:+ "Email" +:+ "_2")) = true.
Proof.
  apply (isPII_embedded "Email" "user_" "_2").
  vm_compute. reflexivity.
Defined.

Lemma getCookie_named_witness :
  Consent.getCookie (Consent.documentCookie ConsentCases.consented) "analytics_consent"
  = Some "true"%string.
Proof.
  apply (proj1 (getCookie_named "analytics_consent" ConsentCases.consented
                  eq_refl eq_refl)).
  reflexivity.
Defined.

Lemma hasConsent_one_cookie_witness :
  Consent.hasConsent true "analytics_consent" (Consent.documentCookie ConsentCases.consented)
  = true.
Proof.
  apply (proj2 (hasConsent_one_cookie true "analytics_consent" ConsentCases.consented
                  eq_refl eq_refl)).
  right. exists "true"%string. split; [reflexivity|]. left. reflexivity.
Defined.

End MoreInstances.
